(** * Icinga 2 IIS Sites Importer: the listing parser and the attribute merger

    A shallow embedding of [Importer._parse_iis_sites], [Importer._parse_bindings]
    and [Importer._compile_sites_objects] of [import-iis-sites.py], together with
    the parts of the Python runtime they rely on: [bytes.decode('utf-8')],
    [str.strip], [re.split] on the two literal separators the program uses, and
    [re.search] for the two patterns of the program, run by a small
    backtracking matcher over the operations the [re] module compiles them to. *)

From Stdlib Require Import NArith List Bool Lia.
From Stdlib.Strings Require Import String Byte.
From stdpp Require Import gmap list fin_maps.
Import ListNotations.

Local Open Scope N_scope.
Local Open Scope list_scope.

(** ** Text *)

(** A Python [str] is a sequence of Unicode code points. *)
Definition char := N.
Definition text := list char.

(** A literal of the source, read as text (all the literals are ASCII). *)
Definition lit (s : string) : text := map Byte.to_N (list_byte_of_string s).

Definition LF : char := 10.
Definition CR : char := 13.
Definition COMMA : char := 44.
Definition COLON : char := 58.
Definition LBRACE : char := 123.
Definition RBRACE : char := 125.

(** [Py_UNICODE_ISSPACE]: the characters [str.strip()] removes and the pattern
    escape [\s] matches on [str] patterns. *)
Definition isspace (c : char) : bool :=
  ((0x09 <=? c) && (c <=? 0x0D)) || ((0x1C <=? c) && (c <=? 0x20))
  || (c =? 0x85) || (c =? 0xA0) || (c =? 0x1680)
  || ((0x2000 <=? c) && (c <=? 0x200A))
  || (c =? 0x2028) || (c =? 0x2029) || (c =? 0x202F) || (c =? 0x205F)
  || (c =? 0x3000).

Fixpoint lstrip (s : text) : text :=
  match s with
  | c :: s' => if isspace c then lstrip s' else s
  | [] => []
  end.

Definition rstrip (s : text) : text := rev (lstrip (rev s)).

(** [str.strip()] *)
Definition strip (s : text) : text := rstrip (lstrip s).

(** [s[i:j]] for [0 <= i], [0 <= j]. *)
Definition slice (s : text) (i j : nat) : text := firstn (j - i) (skipn i s).

(** ** Exceptions *)

Inductive exn : Type :=
| UnicodeDecodeError
| AttributeError
| IndexError
| KeyError
| TypeError.

Inductive result (A : Type) : Type :=
| Ok (a : A)
| Raise (e : exn).
Arguments Ok {A} a.
Arguments Raise {A} e.

(** Sequencing: the first exception raised ends the computation. *)
#[global] Instance result_bind : MBind result := fun A B f r =>
  match r with
  | Ok a => f a
  | Raise e => Raise e
  end.

(** ** [bytes.decode('utf-8')] *)

Definition is_cont (b : N) : bool := (0x80 <=? b) && (b <=? 0xBF).

Definition in_range (lo hi b : N) : bool := (lo <=? b) && (b <=? hi).

(** The strict decoder: the well-formed byte sequences of the Unicode standard
    and nothing else (no overlong forms, no surrogates, nothing above
    U+10FFFF). [None] stands for [UnicodeDecodeError]. *)
Fixpoint utf8_decode (bs : list N) : option text :=
  match bs with
  | [] => Some []
  | b0 :: r0 =>
    if b0 <? 0x80 then
      option_map (cons b0) (utf8_decode r0)
    else if in_range 0xC2 0xDF b0 then
      match r0 with
      | b1 :: r1 =>
        if is_cont b1
        then option_map (cons ((b0 - 0xC0) * 0x40 + (b1 - 0x80))) (utf8_decode r1)
        else None
      | _ => None
      end
    else if in_range 0xE0 0xEF b0 then
      match r0 with
      | b1 :: b2 :: r2 =>
        if in_range (if b0 =? 0xE0 then 0xA0 else 0x80)
                    (if b0 =? 0xED then 0x9F else 0xBF) b1 && is_cont b2
        then option_map
               (cons ((b0 - 0xE0) * 0x1000 + (b1 - 0x80) * 0x40 + (b2 - 0x80)))
               (utf8_decode r2)
        else None
      | _ => None
      end
    else if in_range 0xF0 0xF4 b0 then
      match r0 with
      | b1 :: b2 :: b3 :: r3 =>
        if in_range (if b0 =? 0xF0 then 0x90 else 0x80)
                    (if b0 =? 0xF4 then 0x8F else 0xBF) b1
           && is_cont b2 && is_cont b3
        then option_map
               (cons ((b0 - 0xF0) * 0x40000 + (b1 - 0x80) * 0x1000
                      + (b2 - 0x80) * 0x40 + (b3 - 0x80)))
               (utf8_decode r3)
        else None
      | _ => None
      end
    else None
  end.

Definition decode (input : list byte) : result text :=
  match utf8_decode (map Byte.to_N input) with
  | Some s => Ok s
  | None => Raise UnicodeDecodeError
  end.

(** ** The [re] module *)

Module re.

(** Character sets of the two patterns. *)
Inductive charset : Type :=
| ANY                       (* [.] : anything but a line feed *)
| CATEGORY_SPACE            (* [\s] *)
| CATEGORY_NOT_SPACE        (* [\S] *)
| RANGE (lo hi : char)      (* [[0-9]] *)
| LITERAL (c : char).

Definition in_set (cs : charset) (c : char) : bool :=
  match cs with
  | ANY => negb (c =? LF)
  | CATEGORY_SPACE => isspace c
  | CATEGORY_NOT_SPACE => negb (isspace c)
  | RANGE lo hi => (lo <=? c) && (c <=? hi)
  | LITERAL l => c =? l
  end.

(** The operations a pattern compiles to. A group [( ... )] number [g] is the
    pair of marks [2*(g-1)] and [2*(g-1)+1] around its body. [REPEAT_ONE min cs]
    is a greedy repetition of one character set, at least [min] times. *)
Inductive op : Type :=
| AT_BEGINNING
| AT_END
| MARK (k : nat)
| IN (cs : charset)
| REPEAT_ONE (min : nat) (cs : charset).

Definition marks := list (nat * nat).

Definition set_mark (k pos : nat) (ms : marks) : marks := (k, pos) :: ms.

Fixpoint get_mark (k : nat) (ms : marks) : option nat :=
  match ms with
  | [] => None
  | (k', pos) :: ms' => if Nat.eqb k k' then Some pos else get_mark k ms'
  end.

(** [$] without [MULTILINE]: at the end of the string, or just before a line
    feed that ends the string. *)
Definition at_end (s : text) : bool :=
  match s with
  | [] => true
  | [c] => c =? LF
  | _ => false
  end.

(** Greedy repetition: take one more character when the set allows it and the
    rest of the pattern then matches; otherwise stop here, if [min] characters
    have been taken. [k] is the rest of the pattern. *)
Fixpoint repeat_one (cs : charset) (k : nat -> text -> option marks)
    (min pos : nat) (s : text) {struct s} : option marks :=
  let stop := match min with O => k pos s | S _ => None end in
  match s with
  | c :: s' =>
    if in_set cs c then
      match repeat_one cs k (Nat.pred min) (S pos) s' with
      | Some ms => Some ms
      | None => stop
      end
    else stop
  | [] => stop
  end.

(** Match the operations [prog] at position [pos], where [s] is the text from
    [pos] on. *)
Fixpoint run (prog : list op) (pos : nat) (s : text) (ms : marks)
    {struct prog} : option marks :=
  match prog with
  | [] => Some ms
  | AT_BEGINNING :: prog' =>
    if Nat.eqb pos 0 then run prog' pos s ms else None
  | AT_END :: prog' =>
    if at_end s then run prog' pos s ms else None
  | MARK k :: prog' => run prog' pos s (set_mark k pos ms)
  | IN cs :: prog' =>
    match s with
    | c :: s' => if in_set cs c then run prog' (S pos) s' ms else None
    | [] => None
    end
  | REPEAT_ONE min cs :: prog' =>
    repeat_one cs (fun pos' s' => run prog' pos' s' ms) min pos s
  end.

(** [re.search]: the first position, from the left, where the pattern matches. *)
Fixpoint search_from (prog : list op) (pos : nat) (s : text) : option marks :=
  match run prog pos s [] with
  | Some ms => Some ms
  | None =>
    match s with
    | [] => None
    | _ :: s' => search_from prog (S pos) s'
    end
  end.

Record Match : Type := { m_string : text; m_marks : marks }.

Definition search (prog : list op) (string : text) : option Match :=
  match search_from prog 0 string with
  | Some ms => Some {| m_string := string; m_marks := ms |}
  | None => None
  end.

(** [matches.group(g)]; on [None] the attribute access raises. *)
Definition group (g : nat) (matches : option Match) : result text :=
  match matches with
  | None => Raise AttributeError
  | Some m =>
    match get_mark (2 * (g - 1)) (m_marks m),
          get_mark (2 * (g - 1) + 1) (m_marks m) with
    | Some i, Some j => Ok (slice (m_string m) i j)
    | _, _ => Raise IndexError
    end
  end.

Definition push (c : char) (rows : list text) : list text :=
  match rows with
  | r :: rs => (c :: r) :: rs
  | [] => [[c]]
  end.

(** [re.split('\\r\\n', s)]: the pattern is the two characters CR LF. *)
Fixpoint split_crlf (s : text) : list text :=
  match s with
  | [] => [[]]
  | c :: s' =>
    match s' with
    | d :: s'' =>
      if (c =? CR) && (d =? LF) then [] :: split_crlf s''
      else push c (split_crlf s')
    | [] => push c (split_crlf s')
    end
  end.

(** [re.split(',', s)] *)
Fixpoint split_comma (s : text) : list text :=
  match s with
  | [] => [[]]
  | c :: s' =>
    if c =? COMMA then [] :: split_comma s'
    else push c (split_comma s')
  end.

End re.

Import re.

(** ** The two patterns *)

(** [r'^(\S+)\s+(.+)\s+{(.+)}\s*$'] *)
Definition row_pattern : list op :=
  [ AT_BEGINNING;
    MARK 0; REPEAT_ONE 1 CATEGORY_NOT_SPACE; MARK 1;
    REPEAT_ONE 1 CATEGORY_SPACE;
    MARK 2; REPEAT_ONE 1 ANY; MARK 3;
    REPEAT_ONE 1 CATEGORY_SPACE;
    IN (LITERAL LBRACE);
    MARK 4; REPEAT_ONE 1 ANY; MARK 5;
    IN (LITERAL RBRACE);
    REPEAT_ONE 0 CATEGORY_SPACE;
    AT_END ].

(** [r'^(\S+)\s(.+):([0-9]+):(\S+)$'] *)
Definition binding_pattern : list op :=
  [ AT_BEGINNING;
    MARK 0; REPEAT_ONE 1 CATEGORY_NOT_SPACE; MARK 1;
    IN CATEGORY_SPACE;
    MARK 2; REPEAT_ONE 1 ANY; MARK 3;
    IN (LITERAL COLON);
    MARK 4; REPEAT_ONE 1 (RANGE 48 57); MARK 5;
    IN (LITERAL COLON);
    MARK 6; REPEAT_ONE 1 CATEGORY_NOT_SPACE; MARK 7;
    AT_END ].

(** ** The records the parser builds *)

Record Binding : Type := {
  type : text;
  ip_address : text;
  port : text;
  host_name : text
}.

Record Site : Type := {
  name : text;
  state : text;
  bindings : list Binding
}.

(** ** [_parse_bindings] *)

(** The body of the [try] block: one binding out of one fragment. *)
Definition parse_binding_row (row : text) : result Binding :=
  let matches := search binding_pattern row in
  type ← group 1 matches;
  ip_address ← group 2 matches;
  port ← group 3 matches;
  host_name ← group 4 matches;
  Ok {| type := type; ip_address := ip_address;
        port := port; host_name := host_name |}.

Definition _parse_bindings (input : text) : list Binding :=
  let rows := split_comma input in
  fold_left
    (fun bindings row =>
       match parse_binding_row row with
       | Ok binding => bindings ++ [binding]
       | Raise _ => bindings            (* except: continue *)
       end)
    rows [].

(** ** [_parse_iis_sites] *)

(** The body of the [try] block, on a trimmed row. *)
Definition parse_site_row (row : text) : result Site :=
  let matches := search row_pattern row in
  name ← group 1 matches;
  state ← group 2 matches;
  bindings ← group 3 matches;
  let bindings := _parse_bindings bindings in
  Ok {| name := name; state := state; bindings := bindings |}.

(** One turn of the loop over the rows. *)
Definition site_loop_body (sites : list Site) (row : text) : list Site :=
  match row with
  | [] => sites                         (* skip empty rows *)
  | _ =>
    let row := strip row in
    match parse_site_row row with
    | Ok site => sites ++ [site]
    | Raise _ => sites                  (* except: continue *)
    end
  end.

(** The function after its first line, on the decoded text. *)
Definition parse_listing (input : text) : list Site :=
  let rows := split_crlf input in
  fold_left site_loop_body rows [].

Definition _parse_iis_sites (input : list byte) : result (list Site) :=
  input ← decode input;
  Ok (parse_listing input).

(** ** Objects and references *)

(** The merger works on shared, mutable dictionaries: a store of objects, and
    values that refer to them. *)
Definition loc := nat.

Inductive value : Type :=
| VNone
| VInt (z : Z)
| VStr (s : text)
| VRef (l : loc).

Inductive object : Type :=
| ODict (d : gmap text value)
| OList (vs : list value).

Abbreviation heap := (gmap loc object).

(** A computation reads and updates the store, or raises. *)
Definition M (A : Type) : Type := heap -> result (A * heap).

#[global] Instance M_ret : MRet M := fun A a h => Ok (a, h).

#[global] Instance M_bind : MBind M := fun A B f m h =>
  match m h with
  | Ok (a, h') => f a h'
  | Raise e => Raise e
  end.

(** A new object, at an address not in use. *)
Definition alloc (o : object) : M value := fun h =>
  let l := fresh (dom h) in Ok (VRef l, <[l := o]> h).

(** [o[key]] *)
Definition getitem (o key : value) : M value := fun h =>
  match o with
  | VRef l =>
    match h !! l with
    | Some (ODict d) =>
      match key with
      | VStr k =>
        match d !! k with
        | Some v => Ok (v, h)
        | None => Raise KeyError
        end
      | VRef _ => Raise TypeError       (* unhashable *)
      | _ => Raise KeyError
      end
    | _ => Raise TypeError
    end
  | _ => Raise TypeError
  end.

(** [key in o], for a dictionary [o], which is what the merger is given. On a
    list or a text Python searches the items or the characters; that search
    is left out here, and no statement below depends on it. *)
Definition contains (key o : value) : M bool := fun h =>
  match o with
  | VRef l =>
    match h !! l with
    | Some (ODict d) =>
      match key with
      | VStr k => Ok (bool_decide (is_Some (d !! k)), h)
      | VRef _ => Raise TypeError       (* unhashable *)
      | _ => Ok (false, h)
      end
    | _ => Raise TypeError
    end
  | _ => Raise TypeError
  end.

(** [o[key] = v] *)
Definition setitem (o : value) (key : text) (v : value) : M unit := fun h =>
  match o with
  | VRef l =>
    match h !! l with
    | Some (ODict d) => Ok (tt, <[l := ODict (<[key := v]> d)]> h)
    | _ => Raise TypeError
    end
  | _ => Raise TypeError
  end.

(** A [for] loop that threads an accumulator through the store. *)
Fixpoint for_each {A B : Type} (body : B -> A -> M B) (acc : B) (xs : list A)
    : M B :=
  match xs with
  | [] => mret acc
  | x :: xs' => acc' ← body acc x; for_each body acc' xs'
  end.

(** ** [_compile_sites_objects] *)

Definition compile_loop_body (site_attributes : value) (objects : list value)
    (site : value) : M (list value) :=
  site_name ← getitem site (VStr (lit "name"));
  present ← contains site_name site_attributes;
  attributes ← (if present : bool
                then getitem site_attributes site_name
                else alloc (ODict ∅));
  _ ← setitem site (lit "attributes") attributes;
  mret (objects ++ [site]).

Definition _compile_sites_objects (sites : list value) (site_attributes : value)
    : M (list value) :=
  for_each (compile_loop_body site_attributes) [] sites.

(** ** The dictionaries the parser returns, as objects of the store *)

Definition binding_dict (b : Binding) : gmap text value :=
  <[lit "type" := VStr (type b)]>
  (<[lit "ip_address" := VStr (ip_address b)]>
  (<[lit "port" := VStr (port b)]>
  (<[lit "host_name" := VStr (host_name b)]> ∅))).

Definition site_dict (s : Site) (bindings_ref : value) : gmap text value :=
  <[lit "name" := VStr (name s)]>
  (<[lit "state" := VStr (state s)]>
  (<[lit "bindings" := bindings_ref]> ∅)).

Definition store_site (s : Site) : M value :=
  bs ← for_each (fun acc b => r ← alloc (ODict (binding_dict b)); mret (acc ++ [r]))
                [] (bindings s);
  lb ← alloc (OList bs);
  alloc (ODict (site_dict s lb)).

Definition store_sites (sites : list Site) : M (list value) :=
  for_each (fun acc s => r ← store_site s; mret (acc ++ [r])) [] sites.

(** [handle], from the command output to the objects given to the template:
    parse, then merge. *)
Definition parse_and_compile (std_out : list byte) (site_attributes : value)
    : M (list value) := fun h =>
  match _parse_iis_sites std_out with
  | Raise e => Raise e
  | Ok iis_sites =>
    (sites ← store_sites iis_sites;
     _compile_sites_objects sites site_attributes) h
  end.

(** ** Notions used in the statements *)

(** Every character of [s] is in the set [cs]. *)
Definition all_in (cs : charset) (s : text) : Prop :=
  Forall (fun c => in_set cs c = true) s.


(** The shape the row pattern accepts. *)
Definition row_shape (row : text) (name state bindings : text) : Prop :=
  exists a2 a4 a6 e,
    row = name ++ a2 ++ state ++ a4 ++ LBRACE :: bindings ++ RBRACE :: a6 ++ e /\
    name <> [] /\ all_in CATEGORY_NOT_SPACE name /\
    a2 <> [] /\ all_in CATEGORY_SPACE a2 /\
    state <> [] /\ all_in ANY state /\
    a4 <> [] /\ all_in CATEGORY_SPACE a4 /\
    bindings <> [] /\ all_in ANY bindings /\
    all_in CATEGORY_SPACE a6 /\ at_end e = true.

(** The rows put back together, with a CR LF between two rows. *)
Fixpoint join_crlf (rows : list text) : text :=
  match rows with
  | [] => []
  | r :: rs =>
    match rs with
    | [] => r
    | _ :: _ => r ++ CR :: LF :: join_crlf rs
    end
  end.

(** Does [s] hold a CR LF ? *)
Fixpoint has_crlf (s : text) : bool :=
  match s with
  | [] => false
  | c :: s' =>
    ((c =? CR) && match s' with d :: _ => d =? LF | [] => false end)
    || has_crlf s'
  end.

(** [int(port)], for a text of decimal digits. *)
Definition int_of_digits (s : text) : N :=
  fold_left (fun acc c => acc * 10 + (c - 48)) s 0.

Abbreviation ATTRIBUTES := (lit "attributes").
Abbreviation NAME := (lit "name").

(** A value of the sequence given to the merger: a reference to a dictionary
    with a text under the key [name]. *)
Definition is_site (h : heap) (v : value) : Prop :=
  exists l d n, v = VRef l /\ h !! l = Some (ODict d) /\
                d !! NAME = Some (VStr n).

(** The attributes the merger gives to a site named [n]: the entry of the
    override map, or a reference to a new, empty dictionary. *)
Definition merged_attributes (m : gmap text value) (h h' : heap) (n : text)
    (v : value) : Prop :=
  match m !! n with
  | Some a => v = a
  | None => exists l', v = VRef l' /\ h !! l' = None /\ h' !! l' = Some (ODict ∅)
  end.

#[global] Instance value_eq_dec : EqDecision value.
Proof. solve_decision. Defined.

(** A store for the examples: the override map of scenario D at address 0,
    its entry for [site1] at 1, and two sites at 2 and 3. *)
Definition example_site (n : text) : gmap text value :=
  <[NAME := VStr n]> (<[lit "state" := VStr (lit "Started")]> ∅).

Definition example_overrides : gmap text value :=
  <[lit "site1" := VRef 1%nat]> ∅.

Definition example_heap : heap :=
  <[0%nat := ODict example_overrides]>
  (<[1%nat := ODict (<[lit "notes" := VStr (lit "critical")]> ∅)]>
  (<[2%nat := ODict (example_site (lit "site1"))]>
  (<[3%nat := ODict (example_site (lit "site9"))]> ∅))).

Definition scenario_A : string :=
  "site1    Started    {http *:80:example.test.local,}".

Definition scenario_B : string :=
  "site2    Stopped    {ftp 10.0.0.1:21:ftp.local, https 10.0.0.1:443:secure.local}".

Definition scenario_C : string := "garbage line with no braces".

(** Three rows: scenario A, scenario C, scenario B. *)
Definition example_listing : text :=
  lit scenario_A ++ [CR; LF] ++ lit scenario_C ++ [CR; LF] ++ lit scenario_B.

(** Two rows with the same name. *)
Definition twice_listing : text :=
  lit "site1 Started {http *:80:a}" ++ [CR; LF] ++
  lit "site1 Stopped {http *:81:b}".

(** ** Notions used in the further statements *)

(** The fragments, joined by a comma and the whitespace character [sp]. *)
Fixpoint join_fragments (sp : char) (rows : list text) : text :=
  match rows with
  | [] => []
  | r :: rs =>
    match rs with
    | [] => r
    | _ :: _ => r ++ COMMA :: sp :: join_fragments sp rs
    end
  end.

(** The shape the binding pattern accepts. *)
Definition binding_shape (row : text) (b : Binding) : Prop :=
  exists sp e,
    row = type b ++ sp :: ip_address b ++ COLON :: port b ++ COLON ::
          host_name b ++ e /\
    type b <> [] /\ all_in CATEGORY_NOT_SPACE (type b) /\
    isspace sp = true /\
    ip_address b <> [] /\ all_in ANY (ip_address b) /\
    port b <> [] /\ all_in (RANGE 48 57) (port b) /\
    host_name b <> [] /\ all_in CATEGORY_NOT_SPACE (host_name b) /\
    at_end e = true.

(** The attributes of a site the override map does not name. *)
Definition own_attributes (h h' : heap) (l : loc) (d : gmap text value)
    (a : loc) : Prop :=
  h' !! l = Some (ODict (<[ATTRIBUTES := VRef a]> d)) /\
  h !! a = None /\ h' !! a = Some (ODict ∅).

(** * The settings of the importer *)

(** An instance ([self], the [args] of the command line) is its dictionary of
    attributes, an object of the store. [True] and [False] are the integers 1
    and 0, of which [bool] is a subclass. *)
Definition TRUE : value := VInt 1.
Definition FALSE : value := VInt 0.

(** The truth value of [v] in an [if]. A reference the store says nothing
    about stands for an object of some other kind, which is true. *)
Definition truthy (h : heap) (v : value) : bool :=
  match v with
  | VNone => false
  | VInt z => negb (z =? 0)%Z
  | VStr s => match s with [] => false | _ :: _ => true end
  | VRef l =>
    match h !! l with
    | Some (ODict d) => negb (bool_decide (d = ∅))
    | Some (OList vs) => match vs with [] => false | _ :: _ => true end
    | None => true
    end
  end.

Definition test (v : value) : M bool := fun h => Ok (truthy h v, h).

(** [o.attr] *)
Definition getattr (o : value) (attr : text) : M value := fun h =>
  match o with
  | VRef l =>
    match h !! l with
    | Some (ODict d) =>
      match d !! attr with
      | Some v => Ok (v, h)
      | None => Raise AttributeError
      end
    | _ => Raise AttributeError
    end
  | _ => Raise AttributeError
  end.

(** [getattr(o, attr, default)] *)
Definition getattr_default (o : value) (attr : text) (default : value)
    : M value := fun h =>
  match getattr o attr h with
  | Ok r => Ok r
  | Raise AttributeError => Ok (default, h)
  | Raise e => Raise e
  end.

(** [o.attr = v] *)
Definition setattr (o : value) (attr : text) (v : value) : M unit :=
  setitem o attr v.

(** ** [_manage_arguments] *)

Definition _manage_arguments (self args : value) : M unit :=
  debug ← getattr_default args (lit "debug") FALSE;
  _ ← setattr self (lit "debug") debug;
  debug ← getattr self (lit "debug");
  _ ← test debug;                       (* logging.basicConfig *)
  url ← getattr args (lit "url");
  _ ← setattr self (lit "winrm_url") url;
  username ← getattr args (lit "username");
  _ ← setattr self (lit "winrm_username") username;
  password ← getattr args (lit "password");
  _ ← setattr self (lit "winrm_password") password;
  insecure ← getattr_default args (lit "insecure") FALSE;
  _ ← setattr self (lit "winrm_insecure") insecure;
  output_file ← getattr args (lit "output_file");
  _ ← setattr self (lit "output_file_path") output_file;
  template_file ← getattr args (lit "template_file");
  _ ← setattr self (lit "template_file_path") template_file;
  reload ← getattr_default args (lit "reload") FALSE;
  _ ← setattr self (lit "icinga2_reload") reload;
  conf_file ← getattr_default args (lit "conf_file") VNone;
  setattr self (lit "conf_file") conf_file.

(** ** [_load_conf_file] *)

(** [yaml_load] stands for opening the file and [yaml.load]: from the path to
    the document read, or an exception. *)
Definition _load_conf_file (yaml_load : value -> M value) (self : value)
    : M value :=
  conf_file_path ← getattr self (lit "conf_file");
  match conf_file_path with
  | VNone => mret VNone
  | _ => yaml_load conf_file_path
  end.

(** ** [_parse_conf] *)

(** [if conf[key]: self.attr = conf[key]] *)
Definition conf_override (self conf : value) (key attr : text) : M unit :=
  v ← getitem conf (VStr key);
  t ← test v;
  if t : bool
  then v ← getitem conf (VStr key); setattr self attr v
  else mret tt.

Definition _parse_conf (self conf : value) : M unit :=
  _ ← conf_override self conf (lit "winrm_url") (lit "winrm_url");
  _ ← conf_override self conf (lit "winrm_username") (lit "winrm_username");
  _ ← conf_override self conf (lit "winrm_password") (lit "winrm_password");
  _ ← conf_override self conf (lit "winrm_insecure") (lit "winrm_insecure");
  _ ← conf_override self conf (lit "template_file") (lit "template_file_path");
  _ ← conf_override self conf (lit "output_file") (lit "output_file_path");
  _ ← conf_override self conf (lit "reload_icinga") (lit "reload_icinga");
  v ← getitem conf (VStr (lit "site_attributes"));
  t ← test v;
  if t : bool
  then v ← getitem conf (VStr (lit "site_attributes"));
       setattr self (lit "site_attributes") v
  else d ← alloc (ODict ∅); setattr self (lit "site_attributes") d.

(** ** [__init__] and [_get_attributes] *)

(** [args] is what the parser of the command line returned. *)
Definition __init__ (args : value) (yaml_load : value -> M value)
    (self : value) : M unit :=
  _ ← _manage_arguments self args;
  conf_file ← getattr self (lit "conf_file");
  match conf_file with
  | VNone => mret tt
  | _ => conf ← _load_conf_file yaml_load self; _parse_conf self conf
  end.

(** [Importer()] : a new instance, initialised. *)
Definition Importer (args : value) (yaml_load : value -> M value) : M value :=
  self ← alloc (ODict ∅);
  _ ← __init__ args yaml_load self;
  mret self.

Definition _get_attributes (self : value) : M value :=
  getattr self (lit "site_attributes").

(** The store [h'] differs from [h], at the instance [ls], by the attributes
    [written] at most. *)
Definition keeps (ls : loc) (written : list text) (h h' : heap) : Prop :=
  forall ds, h !! ls = Some (ODict ds) ->
    exists ds', h' !! ls = Some (ODict ds') /\
                forall a, ~ In a written -> ds' !! a = ds !! a.

(** The attributes [_parse_conf] may write. *)
Definition conf_attributes : list text :=
  [ lit "winrm_url"; lit "winrm_username"; lit "winrm_password";
    lit "winrm_insecure"; lit "template_file_path"; lit "output_file_path";
    lit "reload_icinga"; lit "site_attributes" ].

(** The keys [_parse_conf] reads. *)
Definition conf_keys : list text :=
  [ lit "winrm_url"; lit "winrm_username"; lit "winrm_password";
    lit "winrm_insecure"; lit "template_file"; lit "output_file";
    lit "reload_icinga"; lit "site_attributes" ].

(** The settings [_parse_conf] copies when they are true: key of the
    document, attribute of the instance. *)
Definition conf_settings : list (text * text) :=
  [ (lit "winrm_url", lit "winrm_url");
    (lit "winrm_username", lit "winrm_username");
    (lit "winrm_password", lit "winrm_password");
    (lit "winrm_insecure", lit "winrm_insecure");
    (lit "template_file", lit "template_file_path");
    (lit "output_file", lit "output_file_path");
    (lit "reload_icinga", lit "reload_icinga") ].

(** The store [hi] reached from [h] once the settings [W] have been read:
    the instance at [ls] holds them, when true, and is otherwise as in [h];
    nothing else has changed. *)
Definition conf_state (ls lc : loc) (ds c : gmap text value) (h : heap)
    (W : list (text * text)) (hi : heap) : Prop :=
  hi !! lc = Some (ODict c) /\
  (forall l, l <> ls -> hi !! l = h !! l) /\
  exists dsi,
    hi !! ls = Some (ODict dsi) /\
    (forall key attr v, In (key, attr) W -> c !! key = Some v ->
       dsi !! attr = if truthy h v then Some v else ds !! attr) /\
    (forall a, (forall key, ~ In (key, a) W) -> dsi !! a = ds !! a).

(** The attributes [_manage_arguments] gives to an instance whose
    attributes were [ds0], from the attributes [dargs] of [args]. *)
Definition managed (dargs ds0 : gmap text value) : gmap text value :=
  <[lit "conf_file" := default VNone (dargs !! lit "conf_file")]>
  (<[lit "icinga2_reload" := default FALSE (dargs !! lit "reload")]>
  (<[lit "template_file_path" := default VNone (dargs !! lit "template_file")]>
  (<[lit "output_file_path" := default VNone (dargs !! lit "output_file")]>
  (<[lit "winrm_insecure" := default FALSE (dargs !! lit "insecure")]>
  (<[lit "winrm_password" := default VNone (dargs !! lit "password")]>
  (<[lit "winrm_username" := default VNone (dargs !! lit "username")]>
  (<[lit "winrm_url" := default VNone (dargs !! lit "url")]>
  (<[lit "debug" := default FALSE (dargs !! lit "debug")]> ds0)))))))).

(** The attributes the parser of the command line always provides and
    [_manage_arguments] reads without a default. *)
Definition required_arguments : list text :=
  [ lit "url"; lit "username"; lit "password"; lit "output_file";
    lit "template_file" ].

(** The attributes of [args] for a run without configuration file. *)
Definition example_args : gmap text value :=
  <[lit "debug" := FALSE]>
  (<[lit "url" := VStr (lit "http://localhost:5985/wsman")]>
  (<[lit "username" := VStr (lit "admin")]>
  (<[lit "password" := VStr (lit "secret")]>
  (<[lit "insecure" := TRUE]>
  (<[lit "output_file" := VStr (lit "sites.conf")]>
  (<[lit "reload" := FALSE]>
  (<[lit "template_file" := VStr (lit "sites.j2")]>
  (<[lit "conf_file" := VNone]> ∅)))))))).

(** A configuration document with its eight keys; the password and the
    [winrm_insecure] flag are false. *)
Definition example_conf : gmap text value :=
  <[lit "winrm_url" := VStr (lit "https://iis:5986/wsman")]>
  (<[lit "winrm_username" := VStr (lit "icinga")]>
  (<[lit "winrm_password" := VNone]>
  (<[lit "winrm_insecure" := FALSE]>
  (<[lit "template_file" := VStr (lit "iis.j2")]>
  (<[lit "output_file" := VStr (lit "iis.conf")]>
  (<[lit "reload_icinga" := TRUE]>
  (<[lit "site_attributes" := VRef 0%nat]> ∅))))))).

(** The store of the merger examples, with a site the map does not name at
    4, an instance at 10, the document at 11, the document without its last
    key at 12, and the two forms of [args] at 20 and 21. *)
Definition settings_heap : heap :=
  <[4%nat := ODict (example_site (lit "site8"))]>
  (<[10%nat := ODict (managed example_args ∅)]>
  (<[11%nat := ODict example_conf]>
  (<[12%nat := ODict (delete (lit "site_attributes") example_conf)]>
  (<[20%nat := ODict example_args]>
  (<[21%nat := ODict (<[lit "conf_file" := VStr (lit "importer.yml")]>
                        example_args)]>
   example_heap))))).

(** A loader that finds the example document. *)
Definition example_yaml_load (path : value) : M value :=
  fun h => Ok (VRef 11%nat, h).

(** ** Rows, described on the text *)







(** * Properties *)

(** ** Lists *)

Lemma app_eq_app_longer {A : Type} (a a' r b' : list A) :
  a ++ r = a' ++ b' -> (length a < length a')%nat ->
  exists x mid, a' = a ++ x :: mid /\ r = x :: mid ++ b'.
Proof.
  revert a'. induction a as [|y a IH]; intros [|y' a'] H Hlen;
    simpl in *; try lia.
  - exists y', a'. auto.
  - injection H as -> H. destruct (IH a' H) as (x & mid & -> & ->); [lia|].
    exists x, mid. auto.
Qed.

Lemma slice_app_mid (p x q : text) :
  slice (p ++ x ++ q) (length p) (length p + length x) = x.
Proof.
  unfold slice. rewrite drop_app_length.
  replace (length p + length x - length p)%nat with (length x) by lia.
  apply take_app_length.
Qed.

(** ** The matcher *)

Section repeat_one_facts.
Variable cs : charset.
Variable k : nat -> text -> option marks.

(** A successful repetition took some prefix in the set, at least [min]
    long, and the rest of the pattern matched what follows. *)
Lemma repeat_one_sound (min pos : nat) (s : text) (ms : marks) :
  repeat_one cs k min pos s = Some ms ->
  exists a b, s = a ++ b /\ (min <= length a)%nat /\
    Forall (fun c => in_set cs c = true) a /\
    k (pos + length a)%nat b = Some ms.
Proof.
  revert min pos. induction s as [|c s IH]; intros min pos H.
  - simpl in H. destruct min; [|discriminate].
    exists [], []. rewrite Nat.add_0_r. auto.
  - simpl in H.
    assert (Hstop : match min with O => k pos (c :: s) | S _ => None end = Some ms ->
              exists a b, c :: s = a ++ b /\ (min <= length a)%nat /\
                Forall (fun c => in_set cs c = true) a /\
                k (pos + length a)%nat b = Some ms).
    { destruct min; [|discriminate]. intros Hk.
      exists [], (c :: s). rewrite Nat.add_0_r. auto. }
    destruct (in_set cs c) eqn:Hc; [|auto].
    destruct (repeat_one cs k (Nat.pred min) (S pos) s) as [ms'|] eqn:Hr; [|auto].
    injection H as ->.
    destruct (IH _ _ Hr) as (a & b & -> & Hmin & Hall & Hk).
    exists (c :: a), b. simpl. repeat split; auto; [lia|].
    now rewrite <- Nat.add_succ_comm.
Qed.

(** Greedy: the repetition takes the longest prefix after which the rest of
    the pattern matches. *)
Lemma repeat_one_greedy (min pos : nat) (a b : text) (ms : marks) :
  Forall (fun c => in_set cs c = true) a ->
  (min <= length a)%nat ->
  k (pos + length a)%nat b = Some ms ->
  (forall a' b', a ++ b = a' ++ b' -> (length a < length a')%nat ->
     Forall (fun c => in_set cs c = true) a' ->
     k (pos + length a')%nat b' = None) ->
  repeat_one cs k min pos (a ++ b) = Some ms.
Proof.
  revert min pos. induction a as [|c a IH]; intros min pos Hall Hmin Hk Hmax.
  - simpl in *. rewrite Nat.add_0_r in Hk.
    assert (min = 0%nat) as -> by lia.
    destruct b as [|c b]; simpl; [exact Hk|].
    destruct (in_set cs c) eqn:Hc; [|exact Hk].
    destruct (repeat_one cs k 0 (S pos) b) as [ms'|] eqn:Hr; [|exact Hk].
    destruct (repeat_one_sound _ _ _ _ Hr) as (a' & b' & -> & _ & Hall' & Hk').
    assert (Hnone : k (pos + length (c :: a'))%nat b' = None)
      by (apply Hmax; simpl; auto; lia).
    simpl in Hnone. rewrite <- Nat.add_succ_comm in Hnone. congruence.
  - inversion Hall as [|? ? Hc Hall']; subst. simpl. rewrite Hc.
    rewrite (IH (Nat.pred min) (S pos)); auto.
    + simpl in Hmin. lia.
    + simpl in Hk. now rewrite <- Nat.add_succ_comm in Hk.
    + intros a' b' Heq Hlen Hall''.
      specialize (Hmax (c :: a') b'). simpl in Hmax.
      rewrite <- Nat.add_succ_comm in Hmax. apply Hmax; auto; [congruence|lia].
Qed.
End repeat_one_facts.

(** A pattern that starts with [^] matches at the start of the text only. *)
Lemma search_from_anchored (prog : list op) (pos : nat) (s : text) :
  pos <> 0%nat -> search_from (AT_BEGINNING :: prog) pos s = None.
Proof.
  revert pos. induction s as [|c s IH]; intros pos Hpos; simpl;
    destruct pos; try congruence; simpl; auto.
Qed.

Lemma search_anchored (prog : list op) (s : text) :
  search (AT_BEGINNING :: prog) s =
  match run prog 0 s [] with
  | Some ms => Some {| m_string := s; m_marks := ms |}
  | None => None
  end.
Proof.
  unfold search. destruct s as [|c s]; simpl.
  - now destruct (run prog 0 [] []).
  - destruct (run prog 0 (c :: s) []); [reflexivity|].
    now rewrite search_from_anchored.
Qed.

Lemma slice_seg (p x q : text) (i j : nat) :
  i = length p -> j = (i + length x)%nat -> slice (p ++ x ++ q) i j = x.
Proof. intros -> ->. apply slice_app_mid. Qed.

Lemma in_one_inv (cs : charset) (k : nat -> text -> option marks)
    (pos : nat) (s : text) (ms : marks) :
  match s with
  | c :: s' => if in_set cs c then k (S pos) s' else None
  | [] => None
  end = Some ms ->
  exists c s', s = c :: s' /\ in_set cs c = true /\ k (S pos) s' = Some ms.
Proof.
  destruct s as [|c s']; [discriminate|].
  destruct (in_set cs c) eqn:Hc; [|discriminate]. eauto.
Qed.

Ltac repeat_inv H a b Hmin Hall :=
  apply repeat_one_sound in H; destruct H as (a & b & -> & Hmin & Hall & H);
  cbn [run] in H.

Ltac in_inv H c Hc :=
  let s' := fresh "s" in
  apply in_one_inv in H; destruct H as (c & s' & -> & Hc & H); cbn [run] in H.

Ltac at_end_inv H Hend :=
  match type of H with
  | (if at_end ?tl then _ else _) = _ =>
    destruct (at_end tl) eqn:Hend; [|discriminate]; cbn [run] in H
  end.

(** What a match of the row pattern says about the row: its six stretches,
    and the three groups. *)
Lemma row_match_inv (s : text) (ms : marks) :
  run row_pattern 0 s [] = Some ms ->
  exists a1 a2 a3 a4 a5 a6 e,
    s = a1 ++ a2 ++ a3 ++ a4 ++ LBRACE :: a5 ++ RBRACE :: a6 ++ e /\
    a1 <> [] /\ all_in CATEGORY_NOT_SPACE a1 /\
    a2 <> [] /\ all_in CATEGORY_SPACE a2 /\
    a3 <> [] /\ all_in ANY a3 /\
    a4 <> [] /\ all_in CATEGORY_SPACE a4 /\
    a5 <> [] /\ all_in ANY a5 /\
    all_in CATEGORY_SPACE a6 /\ at_end e = true /\
    group 1 (Some {| m_string := s; m_marks := ms |}) = Ok a1 /\
    group 2 (Some {| m_string := s; m_marks := ms |}) = Ok a3 /\
    group 3 (Some {| m_string := s; m_marks := ms |}) = Ok a5.
Proof.
  intros H. unfold row_pattern in H. cbn [run Nat.eqb] in H.
  repeat_inv H a1 b1 Hn1 Ha1.
  repeat_inv H a2 b2 Hn2 Ha2.
  repeat_inv H a3 b3 Hn3 Ha3.
  repeat_inv H a4 b4 Hn4 Ha4.
  in_inv H c1 Hc1. apply N.eqb_eq in Hc1 as ->.
  repeat_inv H a5 b5 Hn5 Ha5.
  in_inv H c2 Hc2. apply N.eqb_eq in Hc2 as ->.
  repeat_inv H a6 e Hn6 Ha6.
  at_end_inv H Hend. injection H as <-.
  exists a1, a2, a3, a4, a5, a6, e.
  assert (Hne : forall a : text, (1 <= length a)%nat -> a <> [])
    by (intros [|] ?; simpl in *; [lia|discriminate]).
  repeat split; auto; unfold group;
    cbn [get_mark set_mark m_marks m_string Nat.eqb Nat.mul Nat.sub Nat.add];
    apply (f_equal Ok).
  - now apply (slice_seg []).
  - rewrite app_assoc. apply slice_seg; rewrite ?length_app; lia.
  - replace (a1 ++ a2 ++ a3 ++ a4 ++ LBRACE :: a5 ++ RBRACE :: a6 ++ e)
      with ((a1 ++ a2 ++ a3 ++ a4 ++ [LBRACE]) ++ a5 ++ RBRACE :: a6 ++ e)
      by (now rewrite <- !app_assoc).
    apply slice_seg; rewrite ?length_app; simpl; lia.
Qed.

(** ** One row *)

Lemma parse_site_row_Ok (row : text) (site : Site) :
  parse_site_row row = Ok site ->
  exists b, row_shape row (name site) (state site) b /\
            bindings site = _parse_bindings b.
Proof.
  unfold parse_site_row, row_pattern. rewrite search_anchored.
  fold row_pattern.
  destruct (run _ 0 row []) as [ms|] eqn:Hrun; [|discriminate].
  change (AT_BEGINNING :: _) with row_pattern.
  assert (Hrun' : run row_pattern 0 row [] = Some ms) by exact Hrun.
  apply row_match_inv in Hrun'.
  destruct Hrun' as (a1 & a2 & a3 & a4 & a5 & a6 & e & Hrow & H1 & H2 & H3 &
    H4 & H5 & H6 & H7 & H8 & H9 & H10 & H11 & H12 & -> & -> & ->).
  cbn. intros [= <-]. cbn. exists a5. split; [|reflexivity].
  exists a2, a4, a6, e. repeat split; assumption.
Qed.


(** ** [str.strip] *)




(** ** The loop over the rows *)

Lemma site_loop_body_app (sites : list Site) (row : text) :
  site_loop_body sites row = sites ++ site_loop_body [] row.
Proof.
  unfold site_loop_body. destruct row; [now rewrite app_nil_r|].
  destruct (parse_site_row _); simpl; [reflexivity|now rewrite app_nil_r].
Qed.

Lemma fold_site_loop_body (rows : list text) (sites : list Site) :
  fold_left site_loop_body rows sites =
  sites ++ flat_map (site_loop_body []) rows.
Proof.
  revert sites. induction rows as [|row rows IH]; intros sites; simpl.
  - now rewrite app_nil_r.
  - rewrite IH, site_loop_body_app, <- app_assoc. reflexivity.
Qed.



Lemma parse_listing_flat_map (input : text) :
  parse_listing input = flat_map (site_loop_body []) (split_crlf input).
Proof. unfold parse_listing. now rewrite fold_site_loop_body. Qed.



(** ** The listing *)

(** C8, as the code has it. Every site of the output has a name that is not
    empty and holds no whitespace character. *)
Theorem site_names_nonempty_no_whitespace (input : text) :
  Forall (fun site => name site <> [] /\
                      Forall (fun c => isspace c = false) (name site))
    (parse_listing input).
Proof.
  rewrite parse_listing_flat_map. apply List.Forall_forall. intros site Hin.
  apply in_flat_map in Hin. destruct Hin as (row & _ & Hin).
  assert (Hs : parse_site_row (strip row) = Ok site).
  { unfold site_loop_body in Hin. destruct row as [|c row]; [destruct Hin|].
    destruct (parse_site_row (strip (c :: row))) as [site'|]; [|destruct Hin].
    destruct Hin as [->|[]]. reflexivity. }
  apply parse_site_row_Ok in Hs.
  destruct Hs as (b & (a2 & a4 & a6 & e & _ & Hne & Hall & _) & _).
  split; [assumption|]. eapply List.Forall_impl; [|exact Hall].
  intros c Hc. simpl in Hc. now destruct (isspace c).
Qed.

(** ** Splitting into rows *)

Lemma join_crlf_push (c : char) (rows : list text) :
  rows <> [] -> join_crlf (push c rows) = c :: join_crlf rows.
Proof.
  destruct rows as [|r [|r' rs]]; simpl; congruence.
Qed.

Lemma split_crlf_facts (n : nat) (s : text) :
  (length s <= n)%nat ->
  join_crlf (split_crlf s) = s /\
  Forall (fun r => has_crlf r = false) (split_crlf s) /\
  exists r rs, split_crlf s = r :: rs /\
    match r with [] => True | x :: _ => head s = Some x end.
Proof.
  revert s. induction n as [|n IH]; intros [|c s'] Hlen; simpl in Hlen; try lia;
    try (simpl; split; [reflexivity|split; [repeat constructor|]];
         exists [], []; split; [reflexivity|exact I]).
  assert (Hpush : forall rows r rs,
    rows = r :: rs -> join_crlf rows = s' ->
    Forall (fun r => has_crlf r = false) rows ->
    ((c =? CR) && match r with d :: _ => d =? LF | [] => false end) = false ->
    join_crlf (push c rows) = c :: s' /\
    Forall (fun r => has_crlf r = false) (push c rows) /\
    exists r0 rs0, push c rows = r0 :: rs0 /\
      match r0 with [] => True | x :: _ => head (c :: s') = Some x end).
  { intros rows r rs -> Hj Hall Hc. split; [|split].
    - rewrite join_crlf_push by discriminate. now rewrite Hj.
    - inversion Hall; subst. simpl. constructor; [|assumption].
      simpl. rewrite Hc. assumption.
    - simpl. exists (c :: r), rs. split; reflexivity. }
  destruct s' as [|d s''].
  - simpl. split; [reflexivity|split].
    + repeat constructor. simpl. now rewrite andb_false_r.
    + exists [c], []. split; reflexivity.
  - destruct (IH (d :: s'')) as (Hj & Hall & r & rs & Hr & Hhd); [lia|].
    change (split_crlf (c :: d :: s'')) with
      (if (c =? CR) && (d =? LF) then [] :: split_crlf s''
       else push c (split_crlf (d :: s''))).
    destruct ((c =? CR) && (d =? LF)) eqn:Hcd.
    + apply andb_true_iff in Hcd as [->%N.eqb_eq ->%N.eqb_eq].
      destruct (IH s'') as (Hj' & Hall' & r' & rs' & Hr' & _);
        [simpl in Hlen; lia|].
      split; [|split].
      * simpl. rewrite Hr'. rewrite Hr' in Hj'. now rewrite Hj'.
      * constructor; [reflexivity|assumption].
      * exists [], (split_crlf s''). split; [reflexivity|exact I].
    + apply (Hpush _ r rs); auto.
      destruct r as [|x r]; [now rewrite andb_false_r|].
      simpl in Hhd. injection Hhd as <-. exact Hcd.
Qed.

(** C9. The rows are the stretches of the input between two CR LF, and a row
    that is empty once trimmed adds no site, whatever was read before it. *)
Theorem rows_split_on_crlf_blank_rows_dropped (input : text) :
  join_crlf (split_crlf input) = input /\
  Forall (fun row => has_crlf row = false) (split_crlf input) /\
  parse_listing input = flat_map (site_loop_body []) (split_crlf input) /\
  (forall row sites, strip row = [] -> site_loop_body sites row = sites).
Proof.
  destruct (split_crlf_facts (length input) input) as (Hj & Hall & _); [lia|].
  repeat split; auto using parse_listing_flat_map.
  intros row sites Hrow. unfold site_loop_body.
  destruct row; [reflexivity|]. rewrite Hrow. reflexivity.
Qed.

Lemma rows_split_on_crlf_blank_rows_dropped_witness :
  site_loop_body [] (lit "   ") = [].
Proof.
  apply (proj2 (proj2 (proj2 (rows_split_on_crlf_blank_rows_dropped [])))).
  reflexivity.
Defined.

(** ** Rows with empty braces *)





(** ** One binding *)

Lemma nonempty_length (a : text) : a <> [] -> (1 <= length a)%nat.
Proof. destruct a; simpl; [congruence|lia]. Qed.

(** A longer stretch would have to go over a character outside the set. *)
Lemma no_longer_stretch (cs : charset) (a r a' b' : text) (x : char) :
  a ++ x :: r = a' ++ b' -> (length a < length a')%nat ->
  in_set cs x = false -> ~ all_in cs a'.
Proof.
  intros Heq Hlen Hx Hall. apply app_eq_app_longer in Heq; [|assumption].
  destruct Heq as (y & mid & -> & [= <- _]).
  apply Forall_app in Hall as [_ Hall]. inversion Hall; subst. congruence.
Qed.

Lemma digits_no_colon (s : text) : all_in (RANGE 48 57) s -> ~ In COLON s.
Proof.
  intros Hall Hin. unfold all_in in Hall. rewrite List.Forall_forall in Hall.
  apply Hall in Hin. discriminate.
Qed.

Lemma count_colon_app (a b : text) :
  count_occ N.eq_dec (a ++ b) COLON =
  (count_occ N.eq_dec a COLON + count_occ N.eq_dec b COLON)%nat.
Proof. apply count_occ_app. Qed.

(** A binding fragment made of its four parts matches the binding pattern,
    and the marks are set around the four parts. *)
Lemma binding_match (proto addr prt host : text) (sp : char) :
  proto <> [] -> all_in CATEGORY_NOT_SPACE proto ->
  isspace sp = true ->
  addr <> [] -> all_in ANY addr ->
  prt <> [] -> all_in (RANGE 48 57) prt ->
  host <> [] -> all_in CATEGORY_NOT_SPACE host -> ~ In COLON host ->
  let s := proto ++ sp :: addr ++ COLON :: prt ++ COLON :: host in
  exists ms,
    run binding_pattern 0 s [] = Some ms /\
    group 1 (Some {| m_string := s; m_marks := ms |}) = Ok proto /\
    group 2 (Some {| m_string := s; m_marks := ms |}) = Ok addr /\
    group 3 (Some {| m_string := s; m_marks := ms |}) = Ok prt /\
    group 4 (Some {| m_string := s; m_marks := ms |}) = Ok host.
Proof.
  intros Hproto0 Hproto Hsp Haddr0 Haddr Hprt0 Hprt Hhost0 Hhost Hcolon.
  cbv zeta. eexists. split.
  unfold binding_pattern. cbn [run Nat.eqb].
  apply repeat_one_greedy; [assumption|now apply nonempty_length| |].
  2:{ intros a' b' Heq Hlen Hall. exfalso.
      eapply no_longer_stretch; eauto. simpl. now rewrite Hsp. }
  cbn [run]. change (in_set CATEGORY_SPACE sp) with (isspace sp). rewrite Hsp.
  apply repeat_one_greedy; [assumption|now apply nonempty_length| |].
  2:{ intros a' b' Heq Hlen Hall.
      match goal with |- ?g = None => destruct g as [ms|] eqn:H end;
        [exfalso|reflexivity].
      in_inv H c1 Hc1. apply N.eqb_eq in Hc1 as ->.
      repeat_inv H d b1 Hn1 Hd.
      in_inv H c2 Hc2. apply N.eqb_eq in Hc2 as ->.
      apply app_eq_app_longer in Heq; [|assumption].
      destruct Heq as (x & mid & _ & [= <- Heq]).
      apply (f_equal (fun l => count_occ N.eq_dec l COLON)) in Heq.
      rewrite !count_colon_app in Heq. simpl in Heq.
      rewrite !count_colon_app in Heq. simpl in Heq.
      apply digits_no_colon in Hprt.
      rewrite (proj1 (count_occ_not_In N.eq_dec _ _) Hprt) in Heq.
      rewrite (proj1 (count_occ_not_In N.eq_dec _ _) Hcolon) in Heq.
      lia. }
  change (in_set (LITERAL COLON) COLON) with true. cbv iota.
  apply repeat_one_greedy; [assumption|now apply nonempty_length| |].
  2:{ intros a' b' Heq Hlen Hall. exfalso.
      now apply (no_longer_stretch (RANGE 48 57) _ _ _ _ _ Heq Hlen). }
  change (in_set (LITERAL COLON) COLON) with true. cbv iota.
  rewrite <- (app_nil_r host) at 1.
  apply repeat_one_greedy; [assumption|now apply nonempty_length|reflexivity|].
  { intros a' b' Heq Hlen Hall. exfalso.
    apply (f_equal (@length char)) in Heq. rewrite !length_app in Heq.
    simpl in Heq. lia. }
  assert (Hseg : forall (s p x q : text) (i j : nat),
    s = p ++ x ++ q -> i = length p -> j = (i + length x)%nat ->
    slice s i j = x) by (intros; subst; apply slice_app_mid).
  repeat split; unfold group;
    cbn [get_mark set_mark m_marks m_string Nat.eqb Nat.mul Nat.sub Nat.add];
    apply (f_equal Ok).
  - apply (Hseg _ [] proto (sp :: addr ++ COLON :: prt ++ COLON :: host));
      simpl; auto.
  - apply (Hseg _ (proto ++ [sp]) addr (COLON :: prt ++ COLON :: host));
      rewrite <- ?app_assoc, ?length_app; simpl; auto; lia.
  - apply (Hseg _ (proto ++ sp :: addr ++ [COLON]) prt (COLON :: host));
      rewrite <- ?app_assoc, ?length_app; simpl;
      rewrite <- ?app_assoc, ?length_app; simpl; auto; lia.
  - apply (Hseg _ (proto ++ sp :: addr ++ COLON :: prt ++ [COLON]) host []);
      rewrite ?app_nil_r, <- ?app_assoc, ?length_app; simpl;
      rewrite <- ?app_assoc, ?length_app; simpl;
      rewrite <- ?app_assoc, ?length_app; simpl; auto; lia.
Qed.

(** C2, as the code has it. A fragment [<protocol> <address>:<port>:<hostName>]
    (one whitespace character after the protocol, no colon in the host name)
    gives the binding made of these four parts; the port is kept as the text
    of its digits. *)
Theorem binding_fields_of_well_formed_fragment
    (proto addr prt host : text) (sp : char) :
  proto <> [] -> all_in CATEGORY_NOT_SPACE proto ->
  isspace sp = true ->
  addr <> [] -> all_in ANY addr ->
  prt <> [] -> all_in (RANGE 48 57) prt ->
  host <> [] -> all_in CATEGORY_NOT_SPACE host -> ~ In COLON host ->
  parse_binding_row (proto ++ sp :: addr ++ COLON :: prt ++ COLON :: host) =
  Ok {| type := proto; ip_address := addr; port := prt; host_name := host |}.
Proof.
  intros Hproto0 Hproto Hsp Haddr0 Haddr Hprt0 Hprt Hhost0 Hhost Hcolon.
  destruct (binding_match proto addr prt host sp) as (ms & Hrun & H1 & H2 & H3 & H4);
    try assumption.
  unfold parse_binding_row. unfold binding_pattern in *.
  rewrite search_anchored.
  change (run (AT_BEGINNING :: ?prog) 0 ?s ?ms0) with (run prog 0 s ms0) in Hrun.
  rewrite Hrun.
  rewrite H1. cbn [mbind result_bind]. rewrite H2. cbn [mbind result_bind].
  rewrite H3. cbn [mbind result_bind]. rewrite H4. reflexivity.
Qed.

Lemma binding_fields_of_well_formed_fragment_witness :
  parse_binding_row (lit "http *:80:example.test.local") =
  Ok {| type := lit "http"; ip_address := lit "*"; port := lit "80";
        host_name := lit "example.test.local" |}.
Proof.
  apply (binding_fields_of_well_formed_fragment
           (lit "http") (lit "*") (lit "80") (lit "example.test.local") 32);
    try discriminate; try reflexivity; try (repeat constructor).
  vm_compute. intuition discriminate.
Defined.

(** C2 does not hold as stated: the port of the binding is the text matched,
    not a number, and nothing bounds it by 65535. *)
Lemma port_is_text_without_range_check :
  exists b, parse_binding_row (lit "http *:99999:h") = Ok b /\
            port b = lit "99999" /\
            ~ (int_of_digits (port b) <= 65535).
Proof.
  eexists. split; [vm_compute; reflexivity|]. split; [reflexivity|].
  vm_compute. congruence.
Qed.

(** ** The merger *)

Lemma fresh_loc_unused (h : heap) : h !! fresh (dom h) = None.
Proof. apply not_elem_of_dom, is_fresh. Qed.

Lemma compile_loop_body_spec (la l : loc) (m d : gmap text value) (n : text)
    (objects : list value) (h : heap) :
  h !! la = Some (ODict m) -> h !! l = Some (ODict d) ->
  d !! NAME = Some (VStr n) ->
  exists v h1,
    compile_loop_body (VRef la) objects (VRef l) h =
      Ok (objects ++ [VRef l], <[l := ODict (<[ATTRIBUTES := v]> d)]> h1) /\
    match m !! n with
    | Some a => v = a /\ h1 = h
    | None => v = VRef (fresh (dom h)) /\
              h1 = <[fresh (dom h) := ODict ∅]> h
    end.
Proof.
  intros Hla Hl Hn.
  unfold compile_loop_body, mbind, M_bind, getitem, contains.
  rewrite Hl, Hn, Hla.
  destruct (m !! n) as [a|] eqn:Hm.
  - rewrite bool_decide_eq_true_2 by eauto.
    unfold getitem, setitem. rewrite Hla, Hm, Hl.
    exists a, h. auto.
  - rewrite bool_decide_eq_false_2 by (intros [? ?]; discriminate).
    unfold alloc, setitem.
    rewrite lookup_insert_ne, Hl.
    + eexists _, _. split; [reflexivity|]. auto.
    + intros Heq. pose proof (fresh_loc_unused h) as Hf. rewrite Heq in Hf.
      congruence.
Qed.

Lemma attributes_not_name : ATTRIBUTES <> NAME.
Proof. discriminate. Qed.

(** One turn of the loop, seen from outside: the site gets its attributes,
    nothing else that was in the store changes. *)
Lemma compile_loop_body_step (la l : loc) (m d : gmap text value) (n : text)
    (objects : list value) (h : heap) :
  h !! la = Some (ODict m) -> h !! l = Some (ODict d) ->
  d !! NAME = Some (VStr n) ->
  exists v h1,
    compile_loop_body (VRef la) objects (VRef l) h =
      Ok (objects ++ [VRef l], h1) /\
    h1 !! l = Some (ODict (<[ATTRIBUTES := v]> d)) /\
    (forall l2 o, h !! l2 = Some o -> l2 <> l -> h1 !! l2 = Some o) /\
    (forall l2, h1 !! l2 = None -> h !! l2 = None) /\
    merged_attributes m h h1 n v.
Proof.
  intros Hla Hl Hn.
  destruct (compile_loop_body_spec la l m d n objects h Hla Hl Hn)
    as (v & h0 & Hrun & Hm).
  exists v, (<[l := ODict (<[ATTRIBUTES := v]> d)]> h0).
  split; [exact Hrun|]. split; [apply lookup_insert_eq|].
  pose proof (fresh_loc_unused h) as Hf.
  unfold merged_attributes. destruct (m !! n) as [a|].
  - destruct Hm as [-> ->]. repeat split.
    + intros l2 o Ho Hne. now rewrite lookup_insert_ne.
    + intros l2 Hnone. destruct (decide (l = l2)) as [->|Hne].
      * rewrite lookup_insert_eq in Hnone. discriminate.
      * now rewrite lookup_insert_ne in Hnone.
  - destruct Hm as [-> ->]. repeat split.
    + intros l2 o Ho Hne. rewrite lookup_insert_ne by congruence.
      rewrite lookup_insert_ne by congruence. exact Ho.
    + intros l2 Hnone. destruct (decide (l = l2)) as [->|Hne].
      * rewrite lookup_insert_eq in Hnone. discriminate.
      * rewrite lookup_insert_ne in Hnone by assumption.
        destruct (decide (fresh (dom h) = l2)) as [<-|Hne']; [assumption|].
        now rewrite lookup_insert_ne in Hnone.
    + exists (fresh (dom h)). split; [reflexivity|]. split; [assumption|].
      rewrite lookup_insert_ne by congruence. apply lookup_insert_eq.
Qed.

Lemma is_site_not_unused (h : heap) (l : loc) (sites : list value) :
  Forall (is_site h) sites -> h !! l = None -> ~ In (VRef l) sites.
Proof.
  intros Hall Hnone Hin. rewrite List.Forall_forall in Hall.
  destruct (Hall _ Hin) as (l' & d & n & [= <-] & Hl & _). congruence.
Qed.

(** The whole loop. *)
Lemma compile_loop_spec (la : loc) (m : gmap text value)
    (sites objects : list value) (h : heap) :
  h !! la = Some (ODict m) ->
  Forall (is_site h) sites ->
  ~ In (VRef la) sites ->
  exists h',
    for_each (compile_loop_body (VRef la)) objects sites h =
      Ok (objects ++ sites, h') /\
    (forall l o, h !! l = Some o -> ~ In (VRef l) sites -> h' !! l = Some o) /\
    (forall l, h' !! l = None -> h !! l = None) /\
    (forall l d n, In (VRef l) sites -> h !! l = Some (ODict d) ->
       d !! NAME = Some (VStr n) ->
       exists v, h' !! l = Some (ODict (<[ATTRIBUTES := v]> d)) /\
                 merged_attributes m h h' n v).
Proof.
  revert objects h. induction sites as [|site rest IH]; intros objects h Hla Hall Hnot.
  - exists h. simpl. rewrite app_nil_r. repeat split; auto. intros ? ? ? [].
  - inversion Hall as [|? ? Hsite Hrest]; subst.
    destruct Hsite as (l & d & n & -> & Hl & Hn).
    destruct (compile_loop_body_step la l m d n objects h Hla Hl Hn)
      as (v1 & h1 & Hrun & Hl1 & Hframe1 & Hnone1 & Hattr1).
    assert (Hla1 : h1 !! la = Some (ODict m)).
    { apply Hframe1; [assumption|]. intros ->. apply Hnot. now left. }
    assert (Hrest1 : Forall (is_site h1) rest).
    { eapply List.Forall_impl; [|exact Hrest].
      intros r (l2 & d2 & n2 & -> & Hl2 & Hn2).
      destruct (decide (l2 = l)) as [->|Hne].
      - exists l, (<[ATTRIBUTES := v1]> d), n. repeat split; [assumption|].
        rewrite lookup_insert_ne by apply attributes_not_name.
        congruence.
      - exists l2, d2, n2. auto. }
    destruct (IH (objects ++ [VRef l]) h1 Hla1 Hrest1) as
      (h' & Hrun' & Hframe' & Hnone' & Hsites').
    { intros Hin. apply Hnot. now right. }
    assert (Hattr : forall n0 v, merged_attributes m h1 h' n0 v ->
                                 merged_attributes m h h' n0 v).
    { unfold merged_attributes. intros n0 v. destruct (m !! n0); [auto|].
      intros (l' & -> & Hl' & Hl''). exists l'. auto. }
    assert (Hattr' : merged_attributes m h h' n v1).
    { revert Hattr1. unfold merged_attributes. destruct (m !! n); [auto|].
      intros (l' & -> & Hl' & Hl''). exists l'. repeat split; [assumption|].
      apply Hframe'; [assumption|].
      apply (is_site_not_unused h); assumption. }
    exists h'. split; [|split; [|split]].
    + simpl. unfold mbind, M_bind. rewrite Hrun.
      rewrite <- app_assoc in Hrun'. exact Hrun'.
    + intros l0 o Ho Hnin. apply Hframe'.
      * apply Hframe1; [assumption|]. intros ->. apply Hnin. now left.
      * intros Hin. apply Hnin. now right.
    + intros l0 Hl0. auto.
    + intros l0 d0 n0 Hin Hl0 Hn0.
      destruct (decide (l0 = l)) as [->|Hne].
      * assert (d0 = d) as -> by congruence.
        assert (n0 = n) as -> by congruence.
        destruct (in_dec value_eq_dec (VRef l) rest) as [Hin'|Hnin'].
        -- destruct (Hsites' l (<[ATTRIBUTES := v1]> d) n Hin' Hl1)
             as (v & Hv & Hm).
           { rewrite lookup_insert_ne by apply attributes_not_name.
             assumption. }
           exists v. rewrite insert_insert_eq in Hv. auto.
        -- exists v1. split; [|assumption]. now apply Hframe'.
      * destruct Hin as [[= ->]|Hin]; [congruence|].
        destruct (Hsites' l0 d0 n0 Hin) as (v & Hv & Hm); auto.
        exists v. auto.
Qed.

(** C6. On any sequence of sites and any override map, the merger returns the
    same references in the same order, and each site gets, under
    [attributes], the entry of the map for its name if there is one, and a
    new empty dictionary otherwise. *)
Theorem merger_keeps_sequence_and_sets_attributes
    (sites : list value) (la : loc) (m : gmap text value) (h : heap) :
  h !! la = Some (ODict m) ->
  Forall (is_site h) sites ->
  ~ In (VRef la) sites ->
  exists h',
    _compile_sites_objects sites (VRef la) h = Ok (sites, h') /\
    forall l d n,
      In (VRef l) sites -> h !! l = Some (ODict d) ->
      d !! NAME = Some (VStr n) ->
      exists v,
        h' !! l = Some (ODict (<[ATTRIBUTES := v]> d)) /\
        match m !! n with
        | Some a => v = a
        | None => exists l', v = VRef l' /\ h !! l' = None /\
                             h' !! l' = Some (ODict ∅)
        end.
Proof.
  intros Hla Hall Hnot.
  destruct (compile_loop_spec la m sites [] h Hla Hall Hnot)
    as (h' & Hrun & _ & _ & Hsites).
  exists h'. split; [exact Hrun|exact Hsites].
Qed.

(** C7, as the code has it. The merger returns the references it was given;
    it changes the dictionary of each site at the key [attributes] and
    nowhere else, and leaves every other object of the store, the override
    map among them, as it was. *)
Theorem merger_updates_sites_in_place
    (sites objects : list value) (la : loc) (m : gmap text value)
    (h h' : heap) :
  h !! la = Some (ODict m) ->
  Forall (is_site h) sites ->
  ~ In (VRef la) sites ->
  _compile_sites_objects sites (VRef la) h = Ok (objects, h') ->
  objects = sites /\
  h' !! la = Some (ODict m) /\
  (forall l o, h !! l = Some o -> ~ In (VRef l) sites -> h' !! l = Some o) /\
  (forall l d, In (VRef l) sites -> h !! l = Some (ODict d) ->
     exists v, h' !! l = Some (ODict (<[ATTRIBUTES := v]> d))).
Proof.
  intros Hla Hall Hnot Hrun.
  destruct (compile_loop_spec la m sites [] h Hla Hall Hnot)
    as (h2 & Hrun2 & Hframe & _ & Hsites).
  unfold _compile_sites_objects in Hrun. rewrite Hrun2 in Hrun.
  injection Hrun as <- <-. repeat split; auto.
  intros l d Hin Hl. rewrite List.Forall_forall in Hall.
  destruct (Hall _ Hin) as (l' & d' & n & [= <-] & Hl' & Hn).
  assert (d' = d) as -> by congruence.
  destruct (Hsites l d n Hin Hl Hn) as (v & Hv & _). eauto.
Qed.

Lemma example_sites_ok : Forall (is_site example_heap) [VRef 2%nat; VRef 3%nat].
Proof.
  repeat constructor.
  - exists 2%nat, (example_site (lit "site1")), (lit "site1"). auto.
  - exists 3%nat, (example_site (lit "site9")), (lit "site9"). auto.
Defined.

Lemma example_overrides_apart : ~ In (VRef 0%nat) [VRef 2%nat; VRef 3%nat].
Proof. simpl. intuition discriminate. Defined.

Lemma merger_keeps_sequence_and_sets_attributes_witness :
  exists h',
    _compile_sites_objects [VRef 2%nat; VRef 3%nat] (VRef 0%nat) example_heap
      = Ok ([VRef 2%nat; VRef 3%nat], h') /\
    h' !! 2%nat =
      Some (ODict (<[ATTRIBUTES := VRef 1%nat]> (example_site (lit "site1")))).
Proof.
  destruct (merger_keeps_sequence_and_sets_attributes
              [VRef 2%nat; VRef 3%nat] 0%nat example_overrides example_heap)
    as (h' & Hrun & Hsites);
    [reflexivity|exact example_sites_ok|exact example_overrides_apart|].
  exists h'. split; [exact Hrun|].
  destruct (Hsites 2%nat (example_site (lit "site1")) (lit "site1"))
    as (v & Hv & Hm); [now left|reflexivity|reflexivity|].
  vm_compute in Hm. now subst v.
Defined.

Lemma merger_updates_sites_in_place_witness :
  exists h',
    _compile_sites_objects [VRef 2%nat; VRef 3%nat] (VRef 0%nat) example_heap
      = Ok ([VRef 2%nat; VRef 3%nat], h') /\
    h' !! 0%nat = Some (ODict example_overrides).
Proof.
  destruct (_compile_sites_objects [VRef 2%nat; VRef 3%nat] (VRef 0%nat)
              example_heap) as [[objects h']|e] eqn:Hrun;
    [|vm_compute in Hrun; discriminate].
  destruct (merger_updates_sites_in_place
              [VRef 2%nat; VRef 3%nat] objects 0%nat example_overrides
              example_heap h')
    as (-> & Hla & _);
    [reflexivity|exact example_sites_ok|exact example_overrides_apart
    |exact Hrun|].
  exists h'. split; [reflexivity|exact Hla].
Defined.

(** C7 does not hold as stated: the merger writes into the sites it is
    given. *)
Lemma merger_mutates_its_input :
  exists h',
    _compile_sites_objects [VRef 2%nat] (VRef 0%nat) example_heap
      = Ok ([VRef 2%nat], h') /\
    h' !! 2%nat <> example_heap !! 2%nat.
Proof.
  eexists. split; [vm_compute; reflexivity|].
  vm_compute. discriminate.
Qed.

(** ** From the parser to the merger *)

Lemma M_bind_Ok {A B : Type} (m : M A) (f : A -> M B) (h h1 : heap) (a : A) :
  m h = Ok (a, h1) -> (m ≫= f) h = f a h1.
Proof. intros H. unfold mbind, M_bind. now rewrite H. Qed.

Lemma alloc_Ok (o : object) (h : heap) :
  alloc o h = Ok (VRef (fresh (dom h)), <[fresh (dom h) := o]> h).
Proof. reflexivity. Qed.

Lemma alloc_each_extends {A : Type} (f : A -> object) (xs : list A)
    (acc : list value) (h : heap) :
  exists rs h1,
    for_each (fun acc x => r ← alloc (f x); mret (acc ++ [r])) acc xs h
      = Ok (rs, h1) /\ h ⊆ h1.
Proof.
  revert acc h. induction xs as [|x xs IH]; intros acc h; simpl.
  - exists acc, h. split; reflexivity.
  - destruct (IH (acc ++ [VRef (fresh (dom h))])
                 (<[fresh (dom h) := f x]> h)) as (rs & h1 & Hrun & Hsub).
    exists rs, h1. split.
    + erewrite M_bind_Ok; [exact Hrun|].
      erewrite M_bind_Ok; [reflexivity|apply alloc_Ok].
    + etrans; [|exact Hsub]. apply insert_subseteq, fresh_loc_unused.
Qed.

Lemma store_site_spec (s : Site) (h : heap) :
  exists l lb h',
    store_site s h = Ok (VRef l, h') /\ h ⊆ h' /\ h !! l = None /\
    h' !! l = Some (ODict (site_dict s lb)).
Proof.
  unfold store_site.
  destruct (alloc_each_extends (fun b => ODict (binding_dict b)) (bindings s) [] h)
    as (bs & h1 & Hrun & Hsub).
  set (lb := fresh (dom h1)). set (h2 := <[lb := OList bs]> h1).
  exists (fresh (dom h2)), (VRef lb),
    (<[fresh (dom h2) := ODict (site_dict s (VRef lb))]> h2).
  assert (Hsub2 : h ⊆ h2).
  { etrans; [exact Hsub|]. apply insert_subseteq, fresh_loc_unused. }
  split; [|split; [|split]].
  - erewrite M_bind_Ok; [|exact Hrun].
    erewrite M_bind_Ok; [|apply alloc_Ok]. apply alloc_Ok.
  - etrans; [exact Hsub2|]. apply insert_subseteq, fresh_loc_unused.
  - eapply lookup_weaken_None; [apply fresh_loc_unused|exact Hsub2].
  - apply lookup_insert_eq.
Qed.

Lemma store_sites_spec (iis_sites : list Site) (acc : list value) (h : heap) :
  exists refs h',
    for_each (fun acc s => r ← store_site s; mret (acc ++ [r])) acc iis_sites h
      = Ok (acc ++ refs, h') /\ h ⊆ h' /\
    length refs = length iis_sites /\
    Forall (fun r => exists l, r = VRef l /\ h !! l = None /\ is_site h' r) refs.
Proof.
  revert acc h. induction iis_sites as [|s rest IH]; intros acc h; simpl.
  - exists [], h. rewrite app_nil_r. repeat split; auto.
  - destruct (store_site_spec s h) as (l & lb & h0 & Hrun & Hsub & Hnone & Hl).
    destruct (IH (acc ++ [VRef l]) h0)
      as (refs & h' & Hrun' & Hsub' & Hlen & Hall).
    exists (VRef l :: refs), h'. split; [|split; [|split]].
    + erewrite M_bind_Ok; [|erewrite M_bind_Ok; [reflexivity|exact Hrun]].
      rewrite Hrun', <- app_assoc. reflexivity.
    + etrans; eassumption.
    + simpl. now rewrite Hlen.
    + constructor.
      * exists l. repeat split; [assumption|].
        exists l, (site_dict s lb), (name s). repeat split.
        eapply lookup_weaken; eassumption.
      * eapply List.Forall_impl; [|exact Hall].
        intros r (l' & -> & Hnone' & Hsite). exists l'. repeat split; auto.
        eapply lookup_weaken_None; eassumption.
Qed.

(** C4. Whatever text the command printed, the parser returns a sequence of
    sites, and the merger, given these sites and any override map, returns a
    sequence of objects: neither raises. *)
Theorem parser_and_merger_never_raise
    (std_out : list byte) (input : text) (la : loc) (m : gmap text value)
    (h : heap) :
  utf8_decode (map Byte.to_N std_out) = Some input ->
  h !! la = Some (ODict m) ->
  _parse_iis_sites std_out = Ok (parse_listing input) /\
  exists objects h',
    parse_and_compile std_out (VRef la) h = Ok (objects, h') /\
    length objects = length (parse_listing input).
Proof.
  intros Hdec Hla.
  assert (Hparse : _parse_iis_sites std_out = Ok (parse_listing input)).
  { unfold _parse_iis_sites, decode. now rewrite Hdec. }
  split; [exact Hparse|].
  unfold parse_and_compile. rewrite Hparse.
  destruct (store_sites_spec (parse_listing input) [] h)
    as (refs & h1 & Hstore & Hsub & Hlen & Hall).
  unfold store_sites. erewrite M_bind_Ok; [|exact Hstore].
  destruct (compile_loop_spec la m refs [] h1) as (h' & Hrun & _).
  - eapply lookup_weaken; eassumption.
  - eapply List.Forall_impl; [|exact Hall]. now intros r (l & _ & _ & Hs).
  - intros Hin. rewrite List.Forall_forall in Hall.
    destruct (Hall _ Hin) as (l & [= <-] & Hnone & _). congruence.
  - exists refs, h'. split; [exact Hrun|exact Hlen].
Qed.

(** ** The scenarios of the specification *)

Lemma parser_and_merger_never_raise_witness :
  _parse_iis_sites (list_byte_of_string scenario_A)
    = Ok (parse_listing (lit scenario_A)) /\
  exists objects h',
    parse_and_compile (list_byte_of_string scenario_A) (VRef 0%nat) example_heap
      = Ok (objects, h') /\
    length objects = length (parse_listing (lit scenario_A)).
Proof.
  apply (parser_and_merger_never_raise
           (list_byte_of_string scenario_A) (lit scenario_A) 0%nat
           example_overrides example_heap); reflexivity.
Defined.


(** C1, on the row of scenario A: the state comes out with the padding that
    stands before the brace, but for its last character. *)
Theorem scenario_A_state_keeps_padding :
  parse_listing (lit scenario_A) =
  [ {| name := lit "site1";
       state := lit "Started   ";
       bindings := [ {| type := lit "http"; ip_address := lit "*";
                        port := lit "80";
                        host_name := lit "example.test.local" |} ] |} ].
Proof. vm_compute. reflexivity. Qed.

(** C3, on the row of scenario B: the second fragment starts with the space
    that follows the comma, does not match, and is dropped; one binding is
    left. *)
Theorem scenario_B_second_binding_dropped :
  parse_listing (lit scenario_B) =
  [ {| name := lit "site2";
       state := lit "Stopped   ";
       bindings := [ {| type := lit "ftp"; ip_address := lit "10.0.0.1";
                        port := lit "21";
                        host_name := lit "ftp.local" |} ] |} ] /\
  parse_binding_row (lit " https 10.0.0.1:443:secure.local")
    = Raise AttributeError.
Proof. split; vm_compute; reflexivity. Qed.

(** C8 does not hold as stated: two rows with one name give two sites with
    that name. *)
Lemma site_names_not_unique :
  ~ List.NoDup (map name (parse_listing twice_listing)).
Proof.
  vm_compute. intros H. apply List.NoDup_cons_iff in H as [H _]. apply H. now left.
Qed.

(** Bytes that are not UTF-8 are no text: decoding raises before any row is
    read. *)
Example undecodable_output :
  _parse_iis_sites [Byte.xff] = Raise UnicodeDecodeError.
Proof. reflexivity. Qed.

(** ** One row, in general *)

(** X15. What the row pattern gives on a row made of a name, whitespace, a state
    text, some padding, and the bindings between braces: the state comes out
    with all the padding but its last character. *)
Lemma row_fields_of_well_formed_row
    (nm ws1 st pad b : text) (c w : char) :
  nm <> [] -> all_in CATEGORY_NOT_SPACE nm ->
  ws1 <> [] -> all_in CATEGORY_SPACE ws1 ->
  isspace c = false -> all_in ANY (c :: st) ->
  all_in CATEGORY_SPACE pad -> all_in ANY pad -> isspace w = true ->
  b <> [] -> all_in ANY b -> ~ In LBRACE b ->
  parse_site_row
    (nm ++ ws1 ++ (c :: st) ++ pad ++ w :: LBRACE :: b ++ [RBRACE]) =
  Ok {| name := nm; state := (c :: st) ++ pad; bindings := _parse_bindings b |}.
Proof.
  intros Hnm0 Hnm Hws0 Hws Hc Hst Hpad Hpad' Hw Hb0 Hb Hbrace.
  set (s := nm ++ ws1 ++ (c :: st) ++ pad ++ w :: LBRACE :: b ++ [RBRACE]).
  assert (Hseg : forall (p x q : text) (i j : nat),
    s = p ++ x ++ q -> i = length p -> j = (i + length x)%nat ->
    slice s i j = x) by (intros; subst i j; rewrite H; apply slice_app_mid).
  assert (Hrun : exists ms, run row_pattern 0 s [] = Some ms /\
    group 1 (Some {| m_string := s; m_marks := ms |}) = Ok nm /\
    group 2 (Some {| m_string := s; m_marks := ms |}) = Ok ((c :: st) ++ pad) /\
    group 3 (Some {| m_string := s; m_marks := ms |}) = Ok b).
  { eexists. split.
    - unfold row_pattern, s. cbn [run Nat.eqb].
      apply repeat_one_greedy; [assumption|now apply nonempty_length| |].
      2:{ intros a' b' Heq Hlen Hall. exfalso. destruct ws1 as [|x ws1]; [congruence|].
          inversion Hws; subst.
          apply (no_longer_stretch CATEGORY_NOT_SPACE _ _ _ _ _ Heq Hlen); auto.
          simpl in *. now destruct (isspace x). }
      cbn [run].
      apply repeat_one_greedy; [assumption|now apply nonempty_length| |].
      2:{ intros a' b' Heq Hlen Hall. exfalso.
          now apply (no_longer_stretch CATEGORY_SPACE _ _ _ _ _ Heq Hlen). }
      cbn [run]. rewrite (app_assoc (c :: st) pad).
      apply repeat_one_greedy;
        [apply Forall_app; auto|simpl; lia| |].
      2:{ intros a' b' Heq Hlen Hall.
          match goal with |- ?g = None => destruct g as [ms|] eqn:H end;
            [exfalso|reflexivity].
          repeat_inv H a4 b4 Hn4 Ha4.
          in_inv H c1 Hc1. apply N.eqb_eq in Hc1 as ->.
          apply app_eq_app_longer in Heq; [|assumption].
          destruct Heq as (x & mid & _ & [= <- Heq]).
          destruct mid as [|y mid].
          - destruct a4 as [|x4 a4]; [simpl in Hn4; lia|].
            simpl in Heq. injection Heq as <- _. inversion Ha4; subst.
            discriminate.
          - simpl in Heq. injection Heq as <- Heq.
            assert (Hin : In LBRACE (b ++ [RBRACE])).
            { rewrite Heq. apply in_or_app. right. apply in_or_app. right.
              now left. }
            apply in_app_or in Hin as [Hin|[Hin|[]]]; [contradiction|discriminate]. }
      cbn [run].
      apply (repeat_one_greedy _ _ _ _ [w]);
        [repeat constructor; exact Hw|simpl; lia| |].
      2:{ intros a' b' Heq Hlen Hall. exfalso.
          now apply (no_longer_stretch CATEGORY_SPACE [w] _ _ _ _ Heq Hlen). }
      cbn [run]. change (in_set (LITERAL LBRACE) LBRACE) with true. cbv iota.
      apply repeat_one_greedy; [assumption|now apply nonempty_length| |].
      2:{ intros a' b' Heq Hlen Hall.
          apply app_eq_app_longer in Heq; [|assumption].
          destruct Heq as (x & mid & _ & [= <- Heq]).
          destruct mid; [|discriminate]. simpl in Heq. subst b'. reflexivity. }
      cbn [run]. change (in_set (LITERAL RBRACE) RBRACE) with true. cbv iota.
      reflexivity.
    - repeat split; unfold group;
        cbn [get_mark set_mark m_marks m_string Nat.eqb Nat.mul Nat.sub Nat.add];
        apply (f_equal Ok).
      + apply (Hseg [] nm (ws1 ++ (c :: st) ++ pad ++ w :: LBRACE :: b ++ [RBRACE]));
          auto.
      + apply (Hseg (nm ++ ws1) ((c :: st) ++ pad) (w :: LBRACE :: b ++ [RBRACE]));
          unfold s; rewrite <- ?app_assoc, ?length_app; auto.
      + apply (Hseg (nm ++ ws1 ++ (c :: st) ++ pad ++ [w; LBRACE]) b [RBRACE]);
          unfold s; rewrite <- ?app_assoc, ?length_app; simpl;
          rewrite <- ?app_assoc, ?length_app; simpl;
          rewrite <- ?app_assoc, ?length_app; simpl; auto; lia. }
  destruct Hrun as (ms & Hrun & H1 & H2 & H3).
  unfold parse_site_row. unfold row_pattern in *. rewrite search_anchored.
  change (run (AT_BEGINNING :: ?prog) 0 ?t ?ms0) with (run prog 0 t ms0) in Hrun.
  rewrite Hrun, H1. cbn [mbind result_bind]. rewrite H2. cbn [mbind result_bind].
  rewrite H3. reflexivity.
Qed.

(** * Further properties of the parser *)

(** ** The loop over the fragments *)

(** One turn of the loop of [_parse_bindings], from an empty list. *)
Lemma parse_bindings_flat_map (input : text) :
  _parse_bindings input =
  flat_map (fun row => match parse_binding_row row with
                       | Ok binding => [binding]
                       | Raise _ => []
                       end) (split_comma input).
Proof.
  unfold _parse_bindings.
  assert (H : forall rows acc,
    fold_left (fun bindings row =>
                 match parse_binding_row row with
                 | Ok binding => bindings ++ [binding]
                 | Raise _ => bindings
                 end) rows acc =
    acc ++ flat_map (fun row => match parse_binding_row row with
                                | Ok binding => [binding]
                                | Raise _ => []
                                end) rows).
  { induction rows as [|row rows IH]; intros acc; simpl.
    - now rewrite app_nil_r.
    - rewrite IH. destruct (parse_binding_row row); simpl.
      + now rewrite <- app_assoc.
      + reflexivity. }
  apply H.
Qed.

Lemma split_comma_not_nil (s : text) : split_comma s <> [].
Proof.
  destruct s as [|c s]; simpl; [discriminate|].
  destruct (c =? COMMA); [discriminate|].
  destruct (split_comma s); discriminate.
Qed.

Lemma push_app (c : char) (rows rows' : list text) :
  rows <> [] -> push c (rows ++ rows') = push c rows ++ rows'.
Proof. destruct rows; [congruence|reflexivity]. Qed.

Lemma split_comma_app (a b : text) :
  split_comma (a ++ COMMA :: b) = split_comma a ++ split_comma b.
Proof.
  induction a as [|c a IH]; simpl; [reflexivity|].
  destruct (c =? COMMA); [now rewrite IH|].
  rewrite IH. apply push_app, split_comma_not_nil.
Qed.

Lemma split_comma_no_comma (s : text) :
  ~ In COMMA s -> split_comma s = [s].
Proof.
  induction s as [|c s IH]; intros Hnin; simpl; [reflexivity|].
  destruct (c =? COMMA) eqn:Hc.
  - apply N.eqb_eq in Hc. subst. exfalso. apply Hnin. now left.
  - rewrite IH; [reflexivity|]. intros Hin. apply Hnin. now right.
Qed.

Lemma flat_map_split_comma {B : Type} (f : text -> list B) (a b : text) :
  flat_map f (split_comma (a ++ COMMA :: b)) =
  flat_map f (split_comma a) ++ flat_map f (split_comma b).
Proof. rewrite split_comma_app. apply flat_map_app. Qed.

Lemma parse_bindings_app (a b : text) :
  _parse_bindings (a ++ COMMA :: b) = _parse_bindings a ++ _parse_bindings b.
Proof. rewrite !parse_bindings_flat_map. apply flat_map_split_comma. Qed.

(** X3. The bindings of two texts joined by a comma are the bindings of the
    first followed by the bindings of the second. *)
Theorem parse_bindings_comma (a b : text) :
  _parse_bindings (a ++ COMMA :: b) = _parse_bindings a ++ _parse_bindings b.
Proof.
  rewrite !parse_bindings_flat_map, split_comma_app. apply flat_map_app.
Qed.

(** A fragment that is empty or starts with a whitespace character does not
    match. *)
Lemma parse_binding_row_leading_space (row : text) :
  match row with [] => True | c :: _ => isspace c = true end ->
  parse_binding_row row = Raise AttributeError.
Proof.
  intros Hrow. unfold parse_binding_row, binding_pattern.
  rewrite search_anchored. cbn [run].
  destruct row as [|c row]; [reflexivity|].
  simpl. rewrite Hrow. reflexivity.
Qed.

Lemma parse_bindings_one_fragment (row : text) :
  ~ In COMMA row ->
  _parse_bindings row = match parse_binding_row row with
                        | Ok binding => [binding]
                        | Raise _ => []
                        end.
Proof.
  intros Hrow. rewrite parse_bindings_flat_map, split_comma_no_comma by assumption.
  simpl. apply app_nil_r.
Qed.

Lemma fragments_after_space_dropped (sp : char) (rows : list text) :
  isspace sp = true ->
  Forall (fun r => ~ In COMMA r) rows ->
  _parse_bindings (sp :: join_fragments sp rows) = [].
Proof.
  intros Hsp Hrows.
  assert (Hone : forall r, ~ In COMMA r -> _parse_bindings (sp :: r) = []).
  { intros r Hr. rewrite parse_bindings_one_fragment.
    - now rewrite parse_binding_row_leading_space.
    - intros [Heq|Hin]; [|contradiction]. rewrite Heq in Hsp. discriminate. }
  induction Hrows as [|r rs Hr Hrs IH].
  - apply Hone. intros [].
  - destruct rs as [|r' rs]; [now apply Hone|].
    change (join_fragments sp (r :: r' :: rs))
      with (r ++ COMMA :: sp :: join_fragments sp (r' :: rs)).
    rewrite app_comm_cons, parse_bindings_app, IH, Hone by assumption.
    reflexivity.
Qed.

(** X2. In a list of fragments separated by a comma and a whitespace
    character, the way the bindings of a site are printed, every fragment
    after the first is dropped: the bindings are those of the first
    fragment. *)
Theorem only_first_fragment_survives (sp : char) (r : text) (rs : list text) :
  isspace sp = true ->
  Forall (fun r => ~ In COMMA r) (r :: rs) ->
  _parse_bindings (join_fragments sp (r :: rs)) = _parse_bindings r.
Proof.
  intros Hsp Hall. inversion Hall as [|? ? Hr Hrs]; subst.
  destruct rs as [|r' rs]; [reflexivity|].
  change (join_fragments sp (r :: r' :: rs))
    with (r ++ COMMA :: sp :: join_fragments sp (r' :: rs)).
  rewrite parse_bindings_app, fragments_after_space_dropped by assumption.
  apply app_nil_r.
Qed.

Lemma only_first_fragment_survives_witness :
  _parse_bindings (lit "ftp 10.0.0.1:21:a, https 10.0.0.1:443:b, http *:80:c")
  = _parse_bindings (lit "ftp 10.0.0.1:21:a").
Proof.
  apply (only_first_fragment_survives 32 (lit "ftp 10.0.0.1:21:a")
           [lit "https 10.0.0.1:443:b"; lit "http *:80:c"]);
    [reflexivity|].
  repeat constructor; vm_compute; intuition discriminate.
Defined.

(** ** What a binding is made of *)

Lemma binding_match_inv (s : text) (ms : marks) :
  run binding_pattern 0 s [] = Some ms ->
  exists a1 sp a3 a5 a7 e,
    s = a1 ++ sp :: a3 ++ COLON :: a5 ++ COLON :: a7 ++ e /\
    a1 <> [] /\ all_in CATEGORY_NOT_SPACE a1 /\
    isspace sp = true /\
    a3 <> [] /\ all_in ANY a3 /\
    a5 <> [] /\ all_in (RANGE 48 57) a5 /\
    a7 <> [] /\ all_in CATEGORY_NOT_SPACE a7 /\
    at_end e = true /\
    group 1 (Some {| m_string := s; m_marks := ms |}) = Ok a1 /\
    group 2 (Some {| m_string := s; m_marks := ms |}) = Ok a3 /\
    group 3 (Some {| m_string := s; m_marks := ms |}) = Ok a5 /\
    group 4 (Some {| m_string := s; m_marks := ms |}) = Ok a7.
Proof.
  intros H. unfold binding_pattern in H. cbn [run Nat.eqb] in H.
  repeat_inv H a1 b1 Hn1 Ha1.
  in_inv H sp Hsp.
  repeat_inv H a3 b3 Hn3 Ha3.
  in_inv H c1 Hc1. apply N.eqb_eq in Hc1 as ->.
  repeat_inv H a5 b5 Hn5 Ha5.
  in_inv H c2 Hc2. apply N.eqb_eq in Hc2 as ->.
  repeat_inv H a7 e Hn7 Ha7.
  at_end_inv H Hend. injection H as <-.
  exists a1, sp, a3, a5, a7, e.
  assert (Hne : forall a : text, (1 <= length a)%nat -> a <> [])
    by (intros [|] ?; simpl in *; [lia|discriminate]).
  assert (Hseg : forall (s p x q : text) (i j : nat),
    s = p ++ x ++ q -> i = length p -> j = (i + length x)%nat ->
    slice s i j = x) by (intros; subst; apply slice_app_mid).
  repeat split; auto; unfold group;
    cbn [get_mark set_mark m_marks m_string Nat.eqb Nat.mul Nat.sub Nat.add];
    apply (f_equal Ok).
  - apply (Hseg _ [] a1 (sp :: a3 ++ COLON :: a5 ++ COLON :: a7 ++ e));
      simpl; auto.
  - apply (Hseg _ (a1 ++ [sp]) a3 (COLON :: a5 ++ COLON :: a7 ++ e));
      rewrite <- ?app_assoc, ?length_app; simpl; auto; lia.
  - apply (Hseg _ (a1 ++ sp :: a3 ++ [COLON]) a5 (COLON :: a7 ++ e));
      rewrite <- ?app_assoc, ?length_app; simpl;
      rewrite <- ?app_assoc, ?length_app; simpl; auto; lia.
  - apply (Hseg _ (a1 ++ sp :: a3 ++ COLON :: a5 ++ [COLON]) a7 e);
      rewrite <- ?app_assoc, ?length_app; simpl;
      rewrite <- ?app_assoc, ?length_app; simpl;
      rewrite <- ?app_assoc, ?length_app; simpl; auto; lia.
Qed.

Lemma parse_binding_row_Ok (row : text) (b : Binding) :
  parse_binding_row row = Ok b -> binding_shape row b.
Proof.
  unfold parse_binding_row, binding_pattern. rewrite search_anchored.
  destruct (run _ 0 row []) as [ms|] eqn:Hrun; [|discriminate].
  assert (Hrun' : run binding_pattern 0 row [] = Some ms) by exact Hrun.
  apply binding_match_inv in Hrun'.
  destruct Hrun' as (a1 & sp & a3 & a5 & a7 & e & Hrow & H1 & H2 & H3 & H4 &
    H5 & H6 & H7 & H8 & H9 & H10 & -> & -> & -> & ->).
  cbn. intros [= <-]. exists sp, e. cbn. repeat split; assumption.
Qed.

(** X1. Every binding that [_parse_bindings] returns comes from one of the
    fragments between the commas, and its four fields put that fragment back
    together: a type without whitespace, one whitespace character, an address
    without line feed, a colon, a port made of decimal digits, a colon, a
    host name without whitespace; no field is empty. *)
Theorem bindings_come_from_fragments (input : text) :
  Forall (fun b => exists row, In row (split_comma input) /\ binding_shape row b)
    (_parse_bindings input).
Proof.
  rewrite parse_bindings_flat_map. apply List.Forall_forall. intros b Hin.
  apply in_flat_map in Hin. destruct Hin as (row & Hrow & Hin).
  exists row. split; [assumption|].
  destruct (parse_binding_row row) as [b'|] eqn:Hb; [|destruct Hin].
  destruct Hin as [<-|[]]. now apply parse_binding_row_Ok.
Qed.

(** ** Listings put together *)

Lemma split_crlf_not_nil (s : text) : split_crlf s <> [].
Proof.
  destruct (split_crlf_facts (length s) s) as (_ & _ & r & rs & -> & _);
    [lia|discriminate].
Qed.

Lemma split_crlf_app (a b : text) :
  split_crlf (a ++ CR :: LF :: b) = split_crlf a ++ split_crlf b.
Proof.
  remember (length a) as n eqn:Hn. revert a Hn.
  induction n as [n IH] using lt_wf_ind. intros a Hn.
  destruct a as [|c [|d a]].
  - simpl. reflexivity.
  - change (split_crlf ([c] ++ CR :: LF :: b))
      with (if (c =? CR) && (CR =? LF) then [] :: split_crlf (LF :: b)
            else push c (split_crlf (CR :: LF :: b))).
    change (CR =? LF) with false. rewrite andb_false_r. reflexivity.
  - change (split_crlf ((c :: d :: a) ++ CR :: LF :: b))
      with (if (c =? CR) && (d =? LF) then [] :: split_crlf (a ++ CR :: LF :: b)
            else push c (split_crlf ((d :: a) ++ CR :: LF :: b))).
    change (split_crlf (c :: d :: a))
      with (if (c =? CR) && (d =? LF) then [] :: split_crlf a
            else push c (split_crlf (d :: a))).
    destruct ((c =? CR) && (d =? LF)).
    + rewrite (IH (length a)); [reflexivity|subst; simpl; lia|reflexivity].
    + rewrite (IH (length (d :: a))); [|subst; simpl; lia|reflexivity].
      apply push_app, split_crlf_not_nil.
Qed.

(** X4. The sites of two listings joined by a line terminator are the sites
    of the first followed by the sites of the second. *)
Theorem parse_listing_crlf (a b : text) :
  parse_listing (a ++ CR :: LF :: b) = parse_listing a ++ parse_listing b.
Proof.
  rewrite !parse_listing_flat_map, split_crlf_app. apply flat_map_app.
Qed.

(** ** Where a site comes from *)

(** X5. Every site of the output comes from a row of the input: the trimmed
    row starts with the name of the site, a stretch without whitespace that
    whitespace follows; the state is a stretch of that row after it, not
    empty and without line feed; and the bindings are those of the text
    between the last pair of braces. *)
Theorem sites_come_from_rows (input : text) :
  Forall (fun site =>
            exists row b, In row (split_crlf input) /\
              row_shape (strip row) (name site) (state site) b /\
              bindings site = _parse_bindings b)
    (parse_listing input).
Proof.
  rewrite parse_listing_flat_map. apply List.Forall_forall. intros site Hin.
  apply in_flat_map in Hin. destruct Hin as (row & Hrow & Hin).
  unfold site_loop_body in Hin. destruct row as [|c row]; [destruct Hin|].
  destruct (parse_site_row (strip (c :: row))) as [site'|] eqn:Hs; [|destruct Hin].
  destruct Hin as [<-|[]].
  destruct (parse_site_row_Ok _ _ Hs) as (b & Hshape & Hb).
  exists (c :: row), b. auto.
Qed.

(** ** Rows that do not end with a brace *)

Lemma lstrip_head (s t : text) (c : char) :
  lstrip s = c :: t -> isspace c = false.
Proof.
  induction s as [|x s IH]; simpl; [discriminate|].
  destruct (isspace x) eqn:Hx; [exact IH|]. intros [= <- _]. exact Hx.
Qed.

Lemma strip_last (s t : text) (c : char) :
  strip s = t ++ [c] -> isspace c = false.
Proof.
  unfold strip, rstrip. intros H.
  apply (f_equal (@rev char)) in H. rewrite rev_involutive, rev_unit in H.
  eapply lstrip_head. exact H.
Qed.

(** X6. A row whose trimmed text does not end with a closing brace adds no
    site: nothing but whitespace may follow the bindings. *)
Theorem row_must_end_with_brace (row : text) (sites : list Site) :
  last (strip row) <> Some RBRACE ->
  site_loop_body sites row = sites.
Proof.
  intros Hlast. unfold site_loop_body. destruct row as [|c0 row]; [reflexivity|].
  destruct (parse_site_row (strip (c0 :: row))) as [site|] eqn:Hs; [|reflexivity].
  exfalso. apply Hlast.
  destruct (parse_site_row_Ok _ _ Hs) as
    (b & (a2 & a4 & a6 & e & Hrow & _ & _ & _ & _ & _ & _ & _ & _ & _ & _ &
          Ha6 & He) & _).
  assert (Htail : a6 ++ e = []).
  { destruct (a6 ++ e) as [|y l] eqn:Hae; [reflexivity|].
    exfalso. destruct (@exists_last _ (y :: l)) as (t & x & Hl); [discriminate|].
    rewrite Hl in Hae, Hrow.
    assert (Hx : isspace x = false).
    { apply (strip_last (c0 :: row)
               (name site ++ a2 ++ state site ++ a4 ++ LBRACE :: b ++ RBRACE :: t)).
      rewrite Hrow. now rewrite <- !app_assoc, <- !app_comm_cons, <- !app_assoc. }
    assert (Hin : In x (a6 ++ e)) by (rewrite Hae; apply in_or_app; right; now left).
    apply in_app_or in Hin as [Hin|Hin].
    - unfold all_in in Ha6. rewrite List.Forall_forall in Ha6.
      apply Ha6 in Hin. simpl in Hin. congruence.
    - destruct e as [|y' [|z e]]; simpl in He; try discriminate; [destruct Hin|].
      destruct Hin as [<-|[]]. apply N.eqb_eq in He. subst. discriminate. }
  rewrite Hrow, Htail, !app_assoc. change (RBRACE :: []) with ([RBRACE]).
  rewrite !app_comm_cons, !app_assoc. apply last_snoc.
Qed.

Lemma row_must_end_with_brace_witness :
  site_loop_body [] (lit "site1 Started {http *:80:a} x") = [].
Proof.
  apply (row_must_end_with_brace (lit "site1 Started {http *:80:a} x") []).
  vm_compute. discriminate.
Defined.

(** ** Plain output *)

Lemma utf8_decode_ascii (bs : list N) :
  Forall (fun b => b < 128) bs -> utf8_decode bs = Some bs.
Proof.
  induction 1 as [|b bs Hb _ IH]; [reflexivity|].
  cbn [utf8_decode]. apply N.ltb_lt in Hb. rewrite Hb, IH. reflexivity.
Qed.

(** X7. When every byte of the command output is below 128, the parser does
    not raise: each byte is read as the character of that code. *)
Theorem ascii_output_never_raises (std_out : list byte) :
  Forall (fun b => Byte.to_N b < 128) std_out ->
  _parse_iis_sites std_out = Ok (parse_listing (map Byte.to_N std_out)).
Proof.
  intros Hall. unfold _parse_iis_sites, decode.
  rewrite utf8_decode_ascii; [reflexivity|].
  now apply Forall_map.
Qed.

Lemma ascii_output_never_raises_witness :
  _parse_iis_sites (list_byte_of_string scenario_B)
  = Ok (parse_listing (lit scenario_B)).
Proof.
  apply (ascii_output_never_raises (list_byte_of_string scenario_B)).
  repeat constructor.
Defined.

(** * Further properties of the merger *)

Lemma for_each_app {A B : Type} (body : B -> A -> M B) (xs ys : list A)
    (acc : B) (h : heap) :
  for_each body acc (xs ++ ys) h =
  (acc' ← for_each body acc xs; for_each body acc' ys) h.
Proof.
  revert acc h. induction xs as [|x xs IH]; intros acc h; simpl.
  - reflexivity.
  - unfold mbind, M_bind. destruct (body acc x h) as [[acc' h']|e]; [|reflexivity].
    apply IH.
Qed.

(** X8. A site without the key [name] makes the merger raise [KeyError],
    whatever stands after it in the sequence. *)
Theorem merger_site_without_name_raises
    (before after : list value) (l la : loc) (d m : gmap text value)
    (h : heap) :
  h !! la = Some (ODict m) ->
  Forall (is_site h) before ->
  ~ In (VRef la) before ->
  h !! l = Some (ODict d) ->
  d !! NAME = None ->
  _compile_sites_objects (before ++ VRef l :: after) (VRef la) h
  = Raise KeyError.
Proof.
  intros Hla Hall Hnot Hl Hn. unfold _compile_sites_objects.
  rewrite for_each_app.
  destruct (compile_loop_spec la m before [] h Hla Hall Hnot)
    as (h1 & Hrun & Hframe & _).
  erewrite M_bind_Ok; [|exact Hrun].
  assert (Hl1 : h1 !! l = Some (ODict d)).
  { apply Hframe; [assumption|]. intros Hin.
    rewrite List.Forall_forall in Hall.
    destruct (Hall _ Hin) as (l' & d' & n & [= <-] & Hl' & Hn'). congruence. }
  simpl. unfold mbind, M_bind, compile_loop_body, getitem.
  unfold mbind, M_bind. rewrite Hl1, Hn. reflexivity.
Qed.

Lemma merger_site_without_name_raises_witness :
  _compile_sites_objects [VRef 2%nat; VRef 1%nat; VRef 3%nat] (VRef 0%nat)
    example_heap = Raise KeyError.
Proof.
  apply (merger_site_without_name_raises [VRef 2%nat] [VRef 3%nat] 1%nat 0%nat
           (<[lit "notes" := VStr (lit "critical")]> ∅) example_overrides
           example_heap); try reflexivity.
  - repeat constructor.
    exists 2%nat, (example_site (lit "site1")), (lit "site1"). auto.
  - simpl. intuition discriminate.
Defined.

Lemma compile_loop_separate (la : loc) (m : gmap text value)
    (sites objects : list value) (h : heap) :
  h !! la = Some (ODict m) ->
  Forall (is_site h) sites ->
  ~ In (VRef la) sites ->
  List.NoDup sites ->
  exists h',
    for_each (compile_loop_body (VRef la)) objects sites h =
      Ok (objects ++ sites, h') /\
    forall l1 l2 d1 d2 n1 n2,
      In (VRef l1) sites -> In (VRef l2) sites -> l1 <> l2 ->
      h !! l1 = Some (ODict d1) -> d1 !! NAME = Some (VStr n1) ->
      m !! n1 = None ->
      h !! l2 = Some (ODict d2) -> d2 !! NAME = Some (VStr n2) ->
      m !! n2 = None ->
      exists a1 a2, own_attributes h h' l1 d1 a1 /\
                    own_attributes h h' l2 d2 a2 /\ a1 <> a2.
Proof.
  revert objects h.
  induction sites as [|site rest IH]; intros objects h Hla Hall Hnot Hdup.
  - exists h. simpl. rewrite app_nil_r. split; [reflexivity|]. intros ? ? ? ? ? ? [].
  - inversion Hall as [|? ? Hsite Hrest]; subst.
    inversion Hdup as [|? ? Hnin Hdup']; subst.
    destruct Hsite as (l & d & n & -> & Hl & Hn).
    destruct (compile_loop_body_step la l m d n objects h Hla Hl Hn)
      as (v1 & h1 & Hrun & Hl1 & Hframe1 & Hnone1 & Hattr1).
    assert (Hla1 : h1 !! la = Some (ODict m)).
    { apply Hframe1; [assumption|]. intros ->. apply Hnot. now left. }
    assert (Hother : forall l2, In (VRef l2) rest -> l2 <> l)
      by (intros l2 Hin ->; contradiction).
    assert (Hrest1 : Forall (is_site h1) rest).
    { rewrite List.Forall_forall in Hrest |- *. intros r Hin.
      destruct (Hrest r Hin) as (l2 & d2 & n2 & -> & Hl2 & Hn2).
      exists l2, d2, n2. repeat split; auto. }
    assert (Hnot1 : ~ In (VRef la) rest) by (intros Hin; apply Hnot; now right).
    destruct (IH (objects ++ [VRef l]) h1 Hla1 Hrest1 Hnot1 Hdup')
      as (h' & Hrun' & Hsep).
    destruct (compile_loop_spec la m rest (objects ++ [VRef l]) h1 Hla1 Hrest1 Hnot1)
      as (h2 & Hrun2 & Hframe2 & Hnone2 & Hsites2).
    assert (h2 = h') as -> by congruence.
    exists h'. split.
    { simpl. unfold mbind, M_bind. rewrite Hrun, Hrun', <- app_assoc. reflexivity. }
    (* the head of the sequence and a site of the rest *)
    assert (Hpair : forall l2 d2 n2,
      In (VRef l2) rest -> m !! n = None ->
      h !! l2 = Some (ODict d2) -> d2 !! NAME = Some (VStr n2) ->
      m !! n2 = None ->
      exists a1 a2, own_attributes h h' l d a1 /\
                    own_attributes h h' l2 d2 a2 /\ a1 <> a2).
    { intros l2 d2 n2 Hin2 Hm Hl2 Hn2 Hm2.
      unfold merged_attributes in Hattr1. rewrite Hm in Hattr1.
      destruct Hattr1 as (a1 & -> & Ha1 & Ha1').
      assert (Hl2' : h1 !! l2 = Some (ODict d2)) by (apply Hframe1; auto).
      destruct (Hsites2 l2 d2 n2 Hin2 Hl2' Hn2) as (v2 & Hv2 & Hattr2).
      unfold merged_attributes in Hattr2. rewrite Hm2 in Hattr2.
      destruct Hattr2 as (a2 & -> & Ha2 & Ha2').
      exists a1, a2. split; [|split].
      - split; [|split; [assumption|]].
        + now apply Hframe2.
        + apply Hframe2; [assumption|]. now apply (is_site_not_unused h).
      - split; [assumption|]. split; [|assumption]. now apply Hnone1.
      - intros ->. congruence. }
    intros l1 l2 d1 d2 n1 n2 Hin1 Hin2 Hne Hd1 Hn1 Hm1 Hd2 Hn2 Hm2.
    destruct Hin1 as [[= ->]|Hin1]; destruct Hin2 as [[= ->]|Hin2].
    + congruence.
    + assert (d1 = d) as -> by congruence. assert (n1 = n) as -> by congruence.
      eapply Hpair; eauto.
    + assert (d2 = d) as -> by congruence. assert (n2 = n) as -> by congruence.
      destruct (Hpair l1 d1 n1) as (a2 & a1 & H2 & H1 & Ha); auto.
      exists a1, a2. auto.
    + destruct (Hsep l1 l2 d1 d2 n1 n2) as (a1 & a2 & (H1 & H1' & H1'') &
        (H2 & H2' & H2'') & Ha); auto.
      exists a1, a2. repeat split; auto.
Qed.

(** X9. Two different sites that the override map does not name get two
    different new dictionaries: the empty attributes are never shared. *)
Theorem absent_sites_get_separate_dictionaries
    (sites objects : list value) (la l1 l2 : loc)
    (m d1 d2 : gmap text value) (n1 n2 : text) (h h' : heap) :
  h !! la = Some (ODict m) ->
  Forall (is_site h) sites ->
  ~ In (VRef la) sites ->
  List.NoDup sites ->
  _compile_sites_objects sites (VRef la) h = Ok (objects, h') ->
  In (VRef l1) sites -> In (VRef l2) sites -> l1 <> l2 ->
  h !! l1 = Some (ODict d1) -> d1 !! NAME = Some (VStr n1) -> m !! n1 = None ->
  h !! l2 = Some (ODict d2) -> d2 !! NAME = Some (VStr n2) -> m !! n2 = None ->
  exists a1 a2,
    h' !! l1 = Some (ODict (<[ATTRIBUTES := VRef a1]> d1)) /\
    h' !! l2 = Some (ODict (<[ATTRIBUTES := VRef a2]> d2)) /\
    a1 <> a2 /\
    h' !! a1 = Some (ODict ∅) /\ h' !! a2 = Some (ODict ∅).
Proof.
  intros Hla Hall Hnot Hdup Hrun Hin1 Hin2 Hne Hd1 Hn1 Hm1 Hd2 Hn2 Hm2.
  destruct (compile_loop_separate la m sites [] h Hla Hall Hnot Hdup)
    as (h2 & Hrun2 & Hsep).
  unfold _compile_sites_objects in Hrun. rewrite Hrun2 in Hrun.
  injection Hrun as _ <-.
  destruct (Hsep l1 l2 d1 d2 n1 n2) as (a1 & a2 & (H1 & _ & H1') &
    (H2 & _ & H2') & Ha); auto.
  exists a1, a2. auto.
Qed.

(** * Properties of the settings *)

Lemma M_bind_Raise {A B : Type} (m : M A) (f : A -> M B) (h : heap) (e : exn) :
  m h = Raise e -> (m ≫= f) h = Raise e.
Proof. intros H. unfold mbind, M_bind. now rewrite H. Qed.

Lemma M_bind_Ok_inv {A B : Type} (m : M A) (f : A -> M B) (h : heap)
    (r : B * heap) :
  (m ≫= f) h = Ok r -> exists a h1, m h = Ok (a, h1) /\ f a h1 = Ok r.
Proof.
  unfold mbind, M_bind. destruct (m h) as [[a h1]|e]; [eauto|discriminate].
Qed.

Lemma getitem_Ok_inv (o key v : value) (h h' : heap) :
  getitem o key h = Ok (v, h') -> h' = h.
Proof.
  unfold getitem. repeat case_match; congruence.
Qed.

Lemma getattr_Ok_inv (o : value) (attr : text) (v : value) (h h' : heap) :
  getattr o attr h = Ok (v, h') -> h' = h.
Proof.
  unfold getattr. repeat case_match; congruence.
Qed.

Lemma getattr_default_Ok_inv (o : value) (attr : text) (default v : value)
    (h h' : heap) :
  getattr_default o attr default h = Ok (v, h') -> h' = h.
Proof.
  unfold getattr_default. destruct (getattr o attr h) as [[v0 h0]|e] eqn:Hg.
  - apply getattr_Ok_inv in Hg. congruence.
  - destruct e; congruence.
Qed.

Lemma setattr_Ok_inv (o : value) (attr : text) (v : value) (u : unit)
    (h h' : heap) :
  setattr o attr v h = Ok (u, h') ->
  exists l ds, o = VRef l /\ h !! l = Some (ODict ds) /\
               h' = <[l := ODict (<[attr := v]> ds)]> h.
Proof.
  unfold setattr, setitem. repeat case_match; try discriminate.
  intros [= <-]. eauto.
Qed.

Lemma keeps_refl (ls : loc) (written : list text) (h : heap) :
  keeps ls written h h.
Proof. intros ds Hds. eauto. Qed.

Lemma keeps_trans (ls : loc) (written : list text) (h1 h2 h3 : heap) :
  keeps ls written h1 h2 -> keeps ls written h2 h3 -> keeps ls written h1 h3.
Proof.
  intros H12 H23 ds Hds. destruct (H12 ds Hds) as (ds2 & Hds2 & Hk2).
  destruct (H23 ds2 Hds2) as (ds3 & Hds3 & Hk3).
  exists ds3. split; [assumption|]. intros a Ha. rewrite Hk3, Hk2; auto.
Qed.

Lemma keeps_setattr (ls : loc) (written : list text) (attr : text)
    (v : value) (u : unit) (h h' : heap) :
  In attr written ->
  setattr (VRef ls) attr v h = Ok (u, h') -> keeps ls written h h'.
Proof.
  intros Hin Hset ds Hds. apply setattr_Ok_inv in Hset.
  destruct Hset as (l & ds0 & [= <-] & Hl & ->).
  assert (ds0 = ds) as -> by congruence.
  exists (<[attr := v]> ds). split; [apply lookup_insert_eq|].
  intros a Ha. apply lookup_insert_ne. intros <-. contradiction.
Qed.

Lemma keeps_alloc (ls : loc) (written : list text) (o : object) (v : value)
    (h h' : heap) :
  alloc o h = Ok (v, h') -> keeps ls written h h'.
Proof.
  unfold alloc. intros [= <- <-] ds Hds. exists ds. split; [|auto].
  rewrite lookup_insert_ne; [assumption|].
  intros Heq. pose proof (fresh_loc_unused h) as Hf. rewrite Heq in Hf. congruence.
Qed.

Lemma keeps_conf_override (ls : loc) (written : list text) (conf : value)
    (key attr : text) (u : unit) (h h' : heap) :
  In attr written ->
  conf_override (VRef ls) conf key attr h = Ok (u, h') -> keeps ls written h h'.
Proof.
  intros Hin H. unfold conf_override in H.
  apply M_bind_Ok_inv in H as (v & h1 & Hg & H). apply getitem_Ok_inv in Hg as ->.
  apply M_bind_Ok_inv in H as (t & h1 & Ht & H). injection Ht as <- <-.
  destruct (truthy h v).
  - apply M_bind_Ok_inv in H as (v' & h1 & Hg & H).
    apply getitem_Ok_inv in Hg as ->. eapply keeps_setattr; eassumption.
  - inversion H; subst. apply keeps_refl.
Qed.

(** X12. [_parse_conf] writes eight attributes of the instance and no other:
    in particular [icinga2_reload], the flag [handle] reads before it reloads
    Icinga, is as the command line set it, whatever the configuration file
    says under [reload_icinga]. *)
Theorem parse_conf_keeps_other_attributes
    (ls : loc) (conf : value) (ds : gmap text value) (u : unit) (h h' : heap) :
  h !! ls = Some (ODict ds) ->
  _parse_conf (VRef ls) conf h = Ok (u, h') ->
  exists ds',
    h' !! ls = Some (ODict ds') /\
    (forall a, ~ In a conf_attributes -> ds' !! a = ds !! a) /\
    ds' !! lit "icinga2_reload" = ds !! lit "icinga2_reload".
Proof.
  intros Hds H.
  assert (Hk : keeps ls conf_attributes h h').
  { unfold _parse_conf in H.
    repeat match type of H with
    | (conf_override _ _ _ _ ≫= _) _ = Ok _ =>
      let Hc := fresh "Hc" in let h1 := fresh "h" in
      apply M_bind_Ok_inv in H as (? & h1 & Hc & H);
      apply (keeps_conf_override ls conf_attributes) in Hc;
        [|unfold conf_attributes; simpl; tauto];
      eapply keeps_trans; [exact Hc|clear Hc]
    end.
    apply M_bind_Ok_inv in H as (v & hA & Hg & H). apply getitem_Ok_inv in Hg as ->.
    apply M_bind_Ok_inv in H as (t & hB & Ht & H). injection Ht as <- <-.
    destruct (truthy _ v).
    - apply M_bind_Ok_inv in H as (v' & hC & Hg & H).
      apply getitem_Ok_inv in Hg as ->.
      eapply keeps_setattr; [|exact H]. unfold conf_attributes; simpl; tauto.
    - apply M_bind_Ok_inv in H as (d & hC & Ha & H).
      eapply keeps_trans; [eapply keeps_alloc; exact Ha|].
      eapply keeps_setattr; [|exact H]. unfold conf_attributes; simpl; tauto. }
  destruct (Hk ds Hds) as (ds' & Hds' & Hkeep).
  exists ds'. repeat split; auto. apply Hkeep.
  unfold conf_attributes. simpl. intuition discriminate.
Qed.

Lemma conf_override_missing (self : value) (lc : loc) (c : gmap text value)
    (key attr : text) (h : heap) :
  h !! lc = Some (ODict c) -> c !! key = None ->
  conf_override self (VRef lc) key attr h = Raise KeyError.
Proof.
  intros Hc Hkey. unfold conf_override. apply M_bind_Raise.
  unfold getitem. now rewrite Hc, Hkey.
Qed.

Lemma conf_override_exact (ls lc : loc) (ds c : gmap text value)
    (key attr : text) (v : value) (h : heap) :
  h !! ls = Some (ODict ds) -> h !! lc = Some (ODict c) ->
  c !! key = Some v ->
  conf_override (VRef ls) (VRef lc) key attr h =
  Ok (tt, if truthy h v then <[ls := ODict (<[attr := v]> ds)]> h else h).
Proof.
  intros Hds Hc Hkey. unfold conf_override.
  assert (Hg : getitem (VRef lc) (VStr key) h = Ok (v, h))
    by (unfold getitem; now rewrite Hc, Hkey).
  erewrite M_bind_Ok; [|exact Hg].
  erewrite M_bind_Ok; [|reflexivity].
  destruct (truthy h v); [|reflexivity].
  erewrite M_bind_Ok; [|exact Hg].
  unfold setattr, setitem. now rewrite Hds.
Qed.

Lemma conf_override_present (ls lc : loc) (c : gmap text value)
    (key attr : text) (h : heap) :
  (exists ds, h !! ls = Some (ODict ds)) -> h !! lc = Some (ODict c) ->
  ls <> lc -> is_Some (c !! key) ->
  exists h', conf_override (VRef ls) (VRef lc) key attr h = Ok (tt, h') /\
             (exists ds, h' !! ls = Some (ODict ds)) /\
             h' !! lc = Some (ODict c).
Proof.
  intros [ds Hds] Hc Hne [v Hkey].
  rewrite (conf_override_exact ls lc ds c key attr v h Hds Hc Hkey).
  eexists. split; [reflexivity|]. destruct (truthy h v); [|eauto].
  split.
  - eexists. apply lookup_insert_eq.
  - now rewrite lookup_insert_ne.
Qed.

Lemma conf_override_step_raises {B : Type} (ls lc : loc)
    (c : gmap text value) (key attr : text) (rest : M B) :
  ls <> lc ->
  (is_Some (c !! key) ->
   forall h', (exists ds, h' !! ls = Some (ODict ds)) ->
              h' !! lc = Some (ODict c) -> rest h' = Raise KeyError) ->
  forall h, (exists ds, h !! ls = Some (ODict ds)) ->
            h !! lc = Some (ODict c) ->
            (conf_override (VRef ls) (VRef lc) key attr ≫= fun _ => rest) h
            = Raise KeyError.
Proof.
  intros Hne Hrest h Hself Hc. destruct (c !! key) as [v|] eqn:Hkey.
  - destruct (conf_override_present ls lc c key attr h Hself Hc Hne)
      as (h' & Hr & Hself' & Hc'); [rewrite Hkey; eauto|].
    erewrite M_bind_Ok; [|exact Hr]. apply Hrest; eauto.
  - apply M_bind_Raise. now apply (conf_override_missing _ lc c).
Qed.

(** X10. The eight keys of the configuration are all required: when the
    document lacks one of them, [_parse_conf] raises [KeyError]. *)
Theorem parse_conf_missing_key_raises
    (ls lc : loc) (ds c : gmap text value) (k : text) (h : heap) :
  h !! ls = Some (ODict ds) -> h !! lc = Some (ODict c) -> ls <> lc ->
  In k conf_keys -> c !! k = None ->
  _parse_conf (VRef ls) (VRef lc) h = Raise KeyError.
Proof.
  intros Hds Hc Hne Hin Hk. unfold _parse_conf.
  assert (Hself : exists ds, h !! ls = Some (ODict ds)) by eauto.
  clear Hds. revert h Hself Hc.
  apply conf_override_step_raises; [assumption|intros K1].
  apply conf_override_step_raises; [assumption|intros K2].
  apply conf_override_step_raises; [assumption|intros K3].
  apply conf_override_step_raises; [assumption|intros K4].
  apply conf_override_step_raises; [assumption|intros K5].
  apply conf_override_step_raises; [assumption|intros K6].
  apply conf_override_step_raises; [assumption|intros K7].
  intros h _ Hc. apply M_bind_Raise. unfold getitem. rewrite Hc.
  destruct (c !! lit "site_attributes") as [v|] eqn:Hsa; [exfalso|reflexivity].
  unfold conf_keys in Hin. simpl in Hin.
  destruct K1, K2, K3, K4, K5, K6, K7.
  repeat (destruct Hin as [<-|Hin]; [congruence|]). destruct Hin.
Qed.

Section conf_semantics.
Variables (ls lc : loc) (ds c : gmap text value) (h : heap).
Hypothesis Hds : h !! ls = Some (ODict ds).
Hypothesis Hc : h !! lc = Some (ODict c).
Hypothesis Hne : ls <> lc.
Hypothesis Hrefs : forall key l, c !! key = Some (VRef l) -> l <> ls.

Lemma truthy_agree (hi : heap) (key : text) (v : value) :
  (forall l, l <> ls -> hi !! l = h !! l) -> c !! key = Some v ->
  truthy hi v = truthy h v.
Proof.
  intros Hsame Hkey. destruct v as [| | |l]; try reflexivity.
  simpl. rewrite Hsame; [reflexivity|]. eapply Hrefs; eassumption.
Qed.

Lemma conf_state_start : conf_state ls lc ds c h [] h.
Proof.
  split; [assumption|]. split; [auto|]. exists ds.
  split; [assumption|]. split; [intros ? ? ? []|auto].
Qed.

Lemma conf_override_state (W : list (text * text)) (key attr : text)
    (v : value) (hi : heap) :
  conf_state ls lc ds c h W hi -> c !! key = Some v ->
  (forall key', ~ In (key', attr) W) ->
  exists h', conf_override (VRef ls) (VRef lc) key attr hi = Ok (tt, h') /\
             conf_state ls lc ds c h ((key, attr) :: W) h'.
Proof.
  intros (Hci & Hsame & dsi & Hdsi & Hset & Hkeep) Hkey Hfresh.
  rewrite (conf_override_exact ls lc dsi c key attr v hi Hdsi Hci Hkey).
  rewrite (truthy_agree hi key v Hsame Hkey).
  eexists. split; [reflexivity|].
  destruct (truthy h v) eqn:Ht.
  - split; [now rewrite lookup_insert_ne|]. split.
    { intros l Hl. rewrite lookup_insert_ne by congruence. auto. }
    exists (<[attr := v]> dsi). split; [apply lookup_insert_eq|]. split.
    + intros key' attr' v' [[= <- <-]|Hin] Hkey'.
      * assert (v' = v) as -> by congruence.
        rewrite Ht. apply lookup_insert_eq.
      * rewrite lookup_insert_ne; [eauto|]. intros <-. eapply Hfresh; eassumption.
    + intros a Ha. rewrite lookup_insert_ne.
      * apply Hkeep. intros key' Hin. apply (Ha key'). now right.
      * intros <-. apply (Ha key). now left.
  - split; [assumption|]. split; [assumption|].
    exists dsi. split; [assumption|]. split.
    + intros key' attr' v' [[= <- <-]|Hin] Hkey'.
      * assert (v' = v) as -> by congruence.
        rewrite Ht. apply Hkeep. exact Hfresh.
      * eauto.
    + intros a Ha. apply Hkeep. intros key' Hin. apply (Ha key'). now right.
Qed.

Lemma conf_override_state_then (Q : heap -> Prop) (W : list (text * text))
    (key attr : text) (rest : M unit) :
  is_Some (c !! key) ->
  (forall key', ~ In (key', attr) W) ->
  (forall h1, conf_state ls lc ds c h ((key, attr) :: W) h1 ->
     exists h', rest h1 = Ok (tt, h') /\ Q h') ->
  forall hi, conf_state ls lc ds c h W hi ->
    exists h', (conf_override (VRef ls) (VRef lc) key attr ≫= fun _ => rest) hi
               = Ok (tt, h') /\ Q h'.
Proof.
  intros [v Hkey] Hfresh Hrest hi Hst.
  destruct (conf_override_state W key attr v hi Hst Hkey Hfresh)
    as (h1 & Hrun & Hst1).
  destruct (Hrest h1 Hst1) as (h' & Hrun' & HQ).
  exists h'. split; [|assumption].
  erewrite M_bind_Ok; [exact Hrun'|exact Hrun].
Qed.

End conf_semantics.

(** X11. When the document has the eight keys, [_parse_conf] succeeds; each
    of the seven plain settings is copied to its attribute when its value is
    true and leaves the attribute as it was when false (so a false value of
    the file never overrides the command line); and [site_attributes] is the
    value of the document when true, a new empty dictionary otherwise. *)
Theorem parse_conf_copies_true_settings
    (ls lc : loc) (ds c : gmap text value) (h : heap) :
  h !! ls = Some (ODict ds) -> h !! lc = Some (ODict c) -> ls <> lc ->
  (forall key l, c !! key = Some (VRef l) -> l <> ls) ->
  (forall k, In k conf_keys -> is_Some (c !! k)) ->
  exists h',
    _parse_conf (VRef ls) (VRef lc) h = Ok (tt, h') /\
    exists ds',
      h' !! ls = Some (ODict ds') /\
      (forall key attr v, In (key, attr) conf_settings -> c !! key = Some v ->
         ds' !! attr = if truthy h v then Some v else ds !! attr) /\
      (forall v, c !! lit "site_attributes" = Some v ->
         if truthy h v then ds' !! lit "site_attributes" = Some v
         else exists a, ds' !! lit "site_attributes" = Some (VRef a) /\
                        h !! a = None /\ h' !! a = Some (ODict ∅)).
Proof.
  intros Hds Hc Hne Hrefs Hall.
  pose (Q := fun h' : heap =>
    exists ds',
      h' !! ls = Some (ODict ds') /\
      (forall key attr v, In (key, attr) conf_settings -> c !! key = Some v ->
         ds' !! attr = if truthy h v then Some v else ds !! attr) /\
      (forall v, c !! lit "site_attributes" = Some v ->
         if truthy h v then ds' !! lit "site_attributes" = Some v
         else exists a, ds' !! lit "site_attributes" = Some (VRef a) /\
                        h !! a = None /\ h' !! a = Some (ODict ∅))).
  enough (Hmain : forall hi, conf_state ls lc ds c h [] hi ->
            exists h', _parse_conf (VRef ls) (VRef lc) hi = Ok (tt, h') /\ Q h')
    by (apply Hmain, conf_state_start; assumption).
  unfold _parse_conf.
  do 7 (apply (conf_override_state_then ls lc ds c h Hne Hrefs Q);
        [ apply Hall; unfold conf_keys; simpl; tauto
        | intros key' Hin; vm_compute in Hin; intuition congruence
        | ]).
  intros h7 (Hc7 & Hsame & ds7 & Hds7 & Hset & Hkeep).
  destruct (Hall (lit "site_attributes")) as [v Hv];
    [unfold conf_keys; simpl; tauto|].
  assert (Hg : getitem (VRef lc) (VStr (lit "site_attributes")) h7 = Ok (v, h7))
    by (unfold getitem; now rewrite Hc7, Hv).
  erewrite M_bind_Ok; [|exact Hg].
  erewrite M_bind_Ok; [|reflexivity].
  rewrite (truthy_agree ls c h Hrefs h7 (lit "site_attributes") v Hsame Hv).
  assert (Hlook : forall (x : value) key attr v0,
    In (key, attr) conf_settings -> c !! key = Some v0 ->
    <[lit "site_attributes" := x]> ds7 !! attr =
    if truthy h v0 then Some v0 else ds !! attr).
  { intros x key attr v0 Hin Hkey. rewrite lookup_insert_ne.
    - apply (Hset key attr v0); [|assumption].
      unfold conf_settings in Hin. simpl in Hin. simpl. tauto.
    - intros <-. vm_compute in Hin. intuition congruence. }
  destruct (truthy h v) eqn:Ht.
  - erewrite M_bind_Ok; [|exact Hg].
    unfold setattr, setitem. rewrite Hds7. eexists. split; [reflexivity|].
    exists (<[lit "site_attributes" := v]> ds7).
    split; [apply lookup_insert_eq|]. split; [apply Hlook|].
    intros v' Hv'. assert (v' = v) as -> by congruence.
    rewrite Ht. apply lookup_insert_eq.
  - erewrite M_bind_Ok; [|apply alloc_Ok].
    pose proof (fresh_loc_unused h7) as Hf.
    assert (Ha : fresh (dom h7) <> ls) by (intros Heq; rewrite Heq in Hf; congruence).
    unfold setattr, setitem. rewrite lookup_insert_ne, Hds7 by assumption.
    eexists. split; [reflexivity|].
    exists (<[lit "site_attributes" := VRef (fresh (dom h7))]> ds7).
    split; [apply lookup_insert_eq|]. split; [apply Hlook|].
    intros v' Hv'. assert (v' = v) as -> by congruence.
    rewrite Ht. exists (fresh (dom h7)).
    split; [apply lookup_insert_eq|]. split.
    + rewrite <- Hsame by assumption. exact Hf.
    + rewrite lookup_insert_ne by congruence. apply lookup_insert_eq.
Qed.

(** ** The instance after [__init__] *)

Lemma setattr_then {B : Type} (ls : loc) (a : text) (v : value)
    (dsi : gmap text value) (hi : heap) (rest : unit -> M B) :
  hi !! ls = Some (ODict dsi) ->
  (setattr (VRef ls) a v ≫= rest) hi =
  rest tt (<[ls := ODict (<[a := v]> dsi)]> hi).
Proof.
  intros H. apply M_bind_Ok. unfold setattr, setitem. now rewrite H.
Qed.

Lemma getattr_then {B : Type} (l : loc) (a : text) (v : value)
    (d : gmap text value) (hi : heap) (rest : value -> M B) :
  hi !! l = Some (ODict d) -> d !! a = Some v ->
  (getattr (VRef l) a ≫= rest) hi = rest v hi.
Proof.
  intros H Ha. apply M_bind_Ok. unfold getattr. now rewrite H, Ha.
Qed.

Lemma getattr_default_then {B : Type} (l : loc) (a : text) (dflt : value)
    (d : gmap text value) (hi : heap) (rest : value -> M B) :
  hi !! l = Some (ODict d) ->
  (getattr_default (VRef l) a dflt ≫= rest) hi =
  rest (default dflt (d !! a)) hi.
Proof.
  intros H. apply M_bind_Ok. unfold getattr_default, getattr. rewrite H.
  now destruct (d !! a).
Qed.

Lemma manage_arguments_Ok (la ls : loc) (dargs ds0 : gmap text value)
    (h : heap) :
  h !! la = Some (ODict dargs) -> h !! ls = Some (ODict ds0) -> la <> ls ->
  (forall a, In a required_arguments -> is_Some (dargs !! a)) ->
  _manage_arguments (VRef ls) (VRef la) h =
  Ok (tt, <[ls := ODict (managed dargs ds0)]> h).
Proof.
  intros Hla Hls Hne Hreq. unfold _manage_arguments.
  assert (Hargs : forall d, <[ls := d]> h !! la = Some (ODict dargs))
    by (intros d; rewrite lookup_insert_ne by congruence; assumption).
  assert (Hdef : forall a, In a required_arguments ->
            dargs !! a = Some (default VNone (dargs !! a))).
  { intros a Ha. destruct (Hreq a Ha) as [v ->]. reflexivity. }
  rewrite (getattr_default_then la _ _ dargs) by assumption.
  rewrite (setattr_then ls _ _ ds0) by assumption.
  erewrite (getattr_then ls);
    [|apply lookup_insert_eq|apply lookup_insert_eq].
  erewrite M_bind_Ok; [|reflexivity].
  repeat first
    [ erewrite (getattr_then la _ _ dargs);
        [|apply Hargs|apply Hdef; unfold required_arguments; simpl; tauto]
    | rewrite (getattr_default_then la _ _ dargs) by apply Hargs
    | erewrite (setattr_then ls) by apply lookup_insert_eq;
      rewrite insert_insert_eq ].
  unfold setattr, setitem. rewrite lookup_insert_eq, insert_insert_eq.
  reflexivity.
Qed.

Lemma managed_no_site_attributes (dargs : gmap text value) :
  managed dargs ∅ !! lit "site_attributes" = None.
Proof.
  unfold managed. rewrite !lookup_insert_ne by discriminate. apply lookup_empty.
Qed.

Lemma init_manage (la : loc) (dargs : gmap text value) (h : heap) :
  h !! la = Some (ODict dargs) ->
  (forall a, In a required_arguments -> is_Some (dargs !! a)) ->
  let ls := fresh (dom h) in
  la <> ls /\
  _manage_arguments (VRef ls) (VRef la) (<[ls := ODict ∅]> h) =
  Ok (tt, <[ls := ODict (managed dargs ∅)]> h).
Proof.
  intros Hla Hreq ls.
  assert (Hne : la <> ls).
  { intros Heq. pose proof (fresh_loc_unused h) as Hf. fold ls in Hf.
    rewrite <- Heq in Hf. congruence. }
  split; [assumption|].
  rewrite (manage_arguments_Ok la ls dargs ∅); auto.
  - now rewrite insert_insert_eq.
  - now rewrite lookup_insert_ne by congruence.
  - apply lookup_insert_eq.
Qed.

(** X13. An importer built without a configuration file has no attribute
    [site_attributes]: [_get_attributes], which [handle] calls on every run,
    raises [AttributeError]. *)
Theorem importer_without_conf_file
    (la : loc) (dargs : gmap text value) (yaml_load : value -> M value)
    (h : heap) :
  h !! la = Some (ODict dargs) ->
  (forall a, In a required_arguments -> is_Some (dargs !! a)) ->
  default VNone (dargs !! lit "conf_file") = VNone ->
  exists self h',
    Importer (VRef la) yaml_load h = Ok (self, h') /\
    _get_attributes self h' = Raise AttributeError.
Proof.
  intros Hla Hreq Hcf.
  destruct (init_manage la dargs h Hla Hreq) as [Hne Hman].
  set (ls := fresh (dom h)) in *.
  exists (VRef ls), (<[ls := ODict (managed dargs ∅)]> h). split.
  - unfold Importer. erewrite M_bind_Ok; [|apply alloc_Ok]. fold ls.
    unfold __init__.
    erewrite M_bind_Ok; [|erewrite M_bind_Ok; [|exact Hman]].
    + reflexivity.
    + erewrite (getattr_then ls);
        [|apply lookup_insert_eq|unfold managed; apply lookup_insert_eq].
      rewrite Hcf. reflexivity.
  - unfold _get_attributes, getattr.
    now rewrite lookup_insert_eq, managed_no_site_attributes.
Qed.

Lemma parse_conf_sets_site_attributes (ls : loc) (conf : value) (u : unit)
    (h h' : heap) :
  _parse_conf (VRef ls) conf h = Ok (u, h') ->
  exists ds' v, h' !! ls = Some (ODict ds') /\
                ds' !! lit "site_attributes" = Some v.
Proof.
  intros H. unfold _parse_conf in H.
  do 7 (apply M_bind_Ok_inv in H as (? & ? & _ & H)).
  apply M_bind_Ok_inv in H as (v & hA & _ & H).
  apply M_bind_Ok_inv in H as (t & hB & _ & H).
  destruct t.
  - apply M_bind_Ok_inv in H as (v' & hC & _ & H).
    apply setattr_Ok_inv in H as (l & ds0 & [= <-] & _ & ->).
    eexists _, _. split; apply lookup_insert_eq.
  - apply M_bind_Ok_inv in H as (d & hC & _ & H).
    apply setattr_Ok_inv in H as (l & ds0 & [= <-] & _ & ->).
    eexists _, _. split; apply lookup_insert_eq.
Qed.

(** X14. An importer built with a configuration file, when [__init__] comes
    to its end, has the attribute [site_attributes]: [_get_attributes]
    returns it. *)
Theorem importer_with_conf_file
    (la : loc) (dargs : gmap text value) (yaml_load : value -> M value)
    (cf self : value) (h h' : heap) :
  h !! la = Some (ODict dargs) ->
  (forall a, In a required_arguments -> is_Some (dargs !! a)) ->
  dargs !! lit "conf_file" = Some cf -> cf <> VNone ->
  Importer (VRef la) yaml_load h = Ok (self, h') ->
  exists v, _get_attributes self h' = Ok (v, h').
Proof.
  intros Hla Hreq Hcf Hnone H.
  destruct (init_manage la dargs h Hla Hreq) as [Hne Hman].
  set (ls := fresh (dom h)) in *.
  unfold Importer in H. erewrite M_bind_Ok in H; [|apply alloc_Ok]. fold ls in H.
  apply M_bind_Ok_inv in H as (u & h1 & Hinit & H).
  injection H as <- <-.
  unfold __init__ in Hinit. erewrite M_bind_Ok in Hinit; [|exact Hman].
  erewrite (getattr_then ls) in Hinit;
    [|apply lookup_insert_eq|unfold managed; apply lookup_insert_eq].
  rewrite Hcf in Hinit. simpl default in Hinit.
  assert (Hparse : exists conf h2, _parse_conf (VRef ls) conf h2 = Ok (u, h1)).
  { destruct cf; [congruence| | |];
      apply M_bind_Ok_inv in Hinit as (conf & h2 & _ & Hinit); eauto. }
  destruct Hparse as (conf & h2 & Hparse).
  apply parse_conf_sets_site_attributes in Hparse as (ds' & v & Hds' & Hv).
  exists v. unfold _get_attributes, getattr. now rewrite Hds', Hv.
Qed.

(** ** Examples for the settings *)

Lemma settings_sites_ok :
  Forall (is_site settings_heap) [VRef 3%nat; VRef 4%nat].
Proof.
  repeat constructor.
  - exists 3%nat, (example_site (lit "site9")), (lit "site9"). auto.
  - exists 4%nat, (example_site (lit "site8")), (lit "site8"). auto.
Defined.

Lemma absent_sites_get_separate_dictionaries_witness :
  exists h' a1 a2,
    _compile_sites_objects [VRef 3%nat; VRef 4%nat] (VRef 0%nat) settings_heap
      = Ok ([VRef 3%nat; VRef 4%nat], h') /\
    h' !! 3%nat =
      Some (ODict (<[ATTRIBUTES := VRef a1]> (example_site (lit "site9")))) /\
    h' !! 4%nat =
      Some (ODict (<[ATTRIBUTES := VRef a2]> (example_site (lit "site8")))) /\
    a1 <> a2.
Proof.
  assert (Hnot : ~ In (VRef 0%nat) [VRef 3%nat; VRef 4%nat])
    by (simpl; intuition discriminate).
  destruct (compile_loop_spec 0%nat example_overrides
              [VRef 3%nat; VRef 4%nat] [] settings_heap eq_refl
              settings_sites_ok Hnot) as (h' & Hrun & _).
  destruct (absent_sites_get_separate_dictionaries
              [VRef 3%nat; VRef 4%nat] [VRef 3%nat; VRef 4%nat]
              0%nat 3%nat 4%nat
              example_overrides (example_site (lit "site9"))
              (example_site (lit "site8")) (lit "site9") (lit "site8")
              settings_heap h')
    as (a1 & a2 & H1 & H2 & Hne & _);
    try reflexivity; try assumption; try exact settings_sites_ok.
  - repeat constructor; simpl; intuition discriminate.
  - simpl. auto.
  - simpl. auto.
  - discriminate.
  - exists h', a1, a2. auto.
Defined.

Lemma parse_conf_missing_key_raises_witness :
  _parse_conf (VRef 10%nat) (VRef 12%nat) settings_heap = Raise KeyError.
Proof.
  apply (parse_conf_missing_key_raises 10%nat 12%nat
           (managed example_args ∅)
           (delete (lit "site_attributes") example_conf)
           (lit "site_attributes") settings_heap);
    try reflexivity; [discriminate|].
  unfold conf_keys. simpl. tauto.
Defined.

Lemma example_conf_complete (k : text) :
  In k conf_keys -> is_Some (example_conf !! k).
Proof.
  unfold conf_keys. simpl.
  intros H. repeat (destruct H as [<-|H]; [eexists; reflexivity|]). destruct H.
Defined.

Lemma example_conf_refs (key : text) (l : loc) :
  example_conf !! key = Some (VRef l) -> l <> 10%nat.
Proof.
  intros Hk.
  assert (Hall : map_Forall (fun _ v => v <> VRef 10%nat) example_conf)
    by (unfold example_conf;
        repeat (apply map_Forall_insert_2; [discriminate|]);
        apply map_Forall_empty).
  apply Hall in Hk. congruence.
Defined.

Lemma parse_conf_copies_true_settings_witness :
  exists h' ds',
    _parse_conf (VRef 10%nat) (VRef 11%nat) settings_heap = Ok (tt, h') /\
    h' !! 10%nat = Some (ODict ds') /\
    ds' !! lit "winrm_url" = Some (VStr (lit "https://iis:5986/wsman")) /\
    ds' !! lit "winrm_password" = Some (VStr (lit "secret")) /\
    ds' !! lit "winrm_insecure" = Some TRUE /\
    ds' !! lit "site_attributes" = Some (VRef 0%nat).
Proof.
  destruct (parse_conf_copies_true_settings 10%nat 11%nat
              (managed example_args ∅) example_conf settings_heap)
    as (h' & Hrun & ds' & Hds' & Hset & Hsa);
    [reflexivity|reflexivity|discriminate|exact example_conf_refs
    |exact example_conf_complete|].
  exists h', ds'. split; [exact Hrun|]. split; [exact Hds'|].
  split; [|split; [|split]].
  - apply (Hset (lit "winrm_url") (lit "winrm_url")
             (VStr (lit "https://iis:5986/wsman")));
      [unfold conf_settings; simpl; tauto|reflexivity].
  - apply (Hset (lit "winrm_password") (lit "winrm_password") VNone);
      [unfold conf_settings; simpl; tauto|reflexivity].
  - apply (Hset (lit "winrm_insecure") (lit "winrm_insecure") FALSE);
      [unfold conf_settings; simpl; tauto|reflexivity].
  - apply (Hsa (VRef 0%nat)). reflexivity.
Defined.

Lemma parse_conf_keeps_other_attributes_witness :
  exists h' ds',
    _parse_conf (VRef 10%nat) (VRef 11%nat) settings_heap = Ok (tt, h') /\
    h' !! 10%nat = Some (ODict ds') /\
    ds' !! lit "icinga2_reload" = Some FALSE.
Proof.
  destruct (_parse_conf (VRef 10%nat) (VRef 11%nat) settings_heap)
    as [[[] h']|e] eqn:Hrun; [|vm_compute in Hrun; discriminate].
  destruct (parse_conf_keeps_other_attributes 10%nat (VRef 11%nat)
              (managed example_args ∅) tt settings_heap h' eq_refl Hrun)
    as (ds' & Hds' & _ & Hreload).
  exists h', ds'. repeat split; assumption.
Defined.

Lemma importer_without_conf_file_witness :
  exists self h',
    Importer (VRef 20%nat) example_yaml_load settings_heap = Ok (self, h') /\
    _get_attributes self h' = Raise AttributeError.
Proof.
  apply (importer_without_conf_file 20%nat example_args example_yaml_load
           settings_heap); try reflexivity.
  unfold required_arguments. simpl.
  intros a H. repeat (destruct H as [<-|H]; [eexists; reflexivity|]). destruct H.
Defined.

Lemma importer_with_conf_file_witness :
  exists self h' v,
    Importer (VRef 21%nat) example_yaml_load settings_heap = Ok (self, h') /\
    _get_attributes self h' = Ok (v, h').
Proof.
  destruct (Importer (VRef 21%nat) example_yaml_load settings_heap)
    as [[self h']|e] eqn:Hrun; [|vm_compute in Hrun; discriminate].
  destruct (importer_with_conf_file 21%nat
              (<[lit "conf_file" := VStr (lit "importer.yml")]> example_args)
              example_yaml_load (VStr (lit "importer.yml")) self
              settings_heap h') as [v Hv];
    try reflexivity; try assumption; try discriminate.
  - unfold required_arguments. simpl.
    intros a H. repeat (destruct H as [<-|H]; [eexists; reflexivity|]). destruct H.
  - exists self, h', v. auto.
Defined.

Lemma row_fields_of_well_formed_row_witness :
  parse_site_row (lit "site1    Started    {http *:80:a}") =
  Ok {| name := lit "site1"; state := lit "Started   ";
        bindings := _parse_bindings (lit "http *:80:a") |}.
Proof.
  apply (row_fields_of_well_formed_row
           (lit "site1") (lit "    ") (lit "tarted") (lit "   ")
           (lit "http *:80:a") 83 32);
    try discriminate; try reflexivity; try (repeat constructor).
  vm_compute. intuition discriminate.
Defined.

(** * One site for each well-formed row *)


(** ** The matcher finds a match when there is one *)



(** ** What [str.strip] leaves out *)




(** ** The rows the code accepts are the well-formed rows *)












